(** * A shallow embedding of cpp_di (src/cpp_di.hpp)

    The header has a compile-time half (signature discovery in [refl],
    the type ledger in [type_registry], the [static_assert] of
    [fail_type]) and a run-time half (the [registry<T>] singletons driven
    by [std::call_once] and a [std::function] factory).  Both halves are
    modelled here: the compile-time one as functions over C++ types, the
    run-time one as explicit state passing over the registry and the heap. *)

From Stdlib Require Import List Arith Lia ZArith Bool.
Import ListNotations.

(** ** C++ types

    The types the templates are instantiated with.  [TClass n] is a user
    class, [TShared e] is [std::shared_ptr<e>], the other constructors are
    cv-qualification and references. *)
Inductive cty : Type :=
| TClass (id : nat)
| TInt
| TShared (e : cty)
| TConst (t : cty)
| TLRef (t : cty)
| TRRef (t : cty).

Definition cty_eq_dec (a b : cty) : {a = b} + {a <> b}.
Proof. decide equality; apply Nat.eq_dec. Defined.

Definition cty_eqb (a b : cty) : bool := if cty_eq_dec a b then true else false.

Lemma cty_eqb_eq a b : cty_eqb a b = true <-> a = b.
Proof. unfold cty_eqb; destruct (cty_eq_dec a b); split; congruence. Qed.

(** std::remove_reference_t, std::remove_cv_t *)
Definition remove_reference (t : cty) : cty :=
  match t with TLRef u | TRRef u => u | _ => t end.

Definition remove_cv (t : cty) : cty :=
  match t with TConst u => u | _ => t end.

Definition remove_cvref (t : cty) : cty := remove_cv (remove_reference t).

(** ** namespace refl *)
Module Refl.

(** The compile-time "loophole" state: the friend functions
    [loophole(tag<T,N>)] that have been given a definition, each returning
    the type [U] it was defined with, in order of definition. *)
Definition loophole_defs := list (cty * nat * cty).

(** [cloophole(tag<T,N>{})] is a constant expression iff [fn_def] has
    already defined it for [(T,N)]. *)
Definition cloophole_defined (defs : loophole_defs) (T : cty) (N : nat) : bool :=
  existsb (fun '(T', N', _) => cty_eqb T' T && Nat.eqb N' N) defs.

(** [decltype(loophole(tag<T,N>{}))]: the type of the definition, if any. *)
Definition loophole (defs : loophole_defs) (T : cty) (N : nat) : option cty :=
  match find (fun '(T', N', _) => cty_eqb T' T && Nat.eqb N' N) defs with
  | Some (_, _, U) => Some U
  | None => None
  end.

(** The [enable_if] default argument of [fn_def<T,U,N,B>]: well formed iff
    [T] and [U] differ after removing references and cv-qualifiers. *)
Definition fn_def_enabled (T U : cty) : bool :=
  negb (cty_eqb (remove_cvref T) (remove_cvref U)).

(** Instantiating [c_op<T,N>::operator U()]: its default template argument
    [sizeof(fn_def<T, U, N, B>)] with [B = sizeof(ins<U,N>(0)) == sizeof(char)],
    i.e. [B] says whether [cloophole(tag<T,N>)] is already defined.
    If the [enable_if] fails the conversion operator is removed by SFINAE
    ([None]); otherwise the primary template ([B = false]) defines
    [loophole(tag<T,N>)] to return [U], and the specialisation for
    [B = true] defines nothing. *)
Definition c_op_convert (defs : loophole_defs) (T : cty) (N : nat) (U : cty)
  : option loophole_defs :=
  if fn_def_enabled T U then
    Some (if cloophole_defined defs T N then defs else defs ++ [(T, N, U)])
  else None.

(** The type [U] deduced for [operator U()] when the probe initialises a
    parameter of type [P] (for a reference, the referred type is used;
    top-level cv is ignored). *)
Definition deduced_U (P : cty) : cty := remove_cvref P.

(** Whether the converted probe can initialise a parameter of type [P]:
    [operator U()] with [U] deduced as above yields a prvalue, which a
    value parameter, a [const U&] or a [U&&] accepts; a non-const lvalue
    reference [U&] cannot bind it (only conversion functions yielding an
    lvalue reference are candidates there), so the constructor is not
    viable. *)
Definition probe_binds (P : cty) : bool :=
  match P with
  | TLRef (TConst _) => true
  | TLRef _ => false
  | _ => true
  end.

(** Trying one constructor with the probes [c_op<T,0>, ..., c_op<T,n-1>]:
    each probe [i] is converted to parameter [i] (deducing [U] instantiates
    the default template argument, hence [fn_def], before the binding is
    checked). *)
Fixpoint probe_params (defs : loophole_defs) (T : cty) (i : nat) (ps : list cty)
  : option loophole_defs :=
  match ps with
  | [] => Some defs
  | P :: ps' =>
      match c_op_convert defs T i (deduced_U P) with
      | Some defs' => if probe_binds P then probe_params defs' T (S i) ps' else None
      | None => None
      end
  end.

(** [fields_number_ctor<T, Ns...>]: the [(int)] overload is viable iff
    [T(c_op<T,Ns>{}...)] is well formed ([ctor_ok (length Ns)]); then it
    returns [sizeof...(Ns)].  Otherwise the [(...)] overload recurses with
    one more probe.  [depth] is the compiler's template instantiation depth;
    [None] is the build failure when it runs out. *)
Section FieldsNumber.
Variable ctor_ok : nat -> bool.
Variable list_init_ok : nat -> bool.

Fixpoint fields_number_ctor (depth : nat) (n : nat) : option nat :=
  if ctor_ok n then Some n
  else match depth with
       | O => None
       | S d => fields_number_ctor d (S n)
       end.

(** [fields_number<T, Ns...>]: the [(int)] overload is viable iff
    [T{c_op<T,Ns>{}...}] is well formed, and then recurses with one more
    probe; otherwise the [(...)] overload returns [sizeof...(Ns) - 1]. *)
Fixpoint fields_number (depth : nat) (n : nat) : option Z :=
  if list_init_ok n then
    match depth with
    | O => None
    | S d => fields_number d (S n)
    end
  else Some (Z.of_nat n - 1)%Z.
End FieldsNumber.

(** [as_tuple<T>] over a count [n]:
    [std::tuple<decltype(loophole(tag<T, Ns>{}))...>] for [Ns = 0..n-1];
    an undefined [loophole] is a build failure. *)
Fixpoint read_back (defs : loophole_defs) (T : cty) (i n : nat) : option (list cty) :=
  match n with
  | O => Some []
  | S n' =>
      match loophole defs T i, read_back defs T (S i) n' with
      | Some U, Some Us => Some (U :: Us)
      | _, _ => None
      end
  end.

Definition as_tuple (defs : loophole_defs) (T : cty) (n : nat) : option (list cty) :=
  read_back defs T 0 n.

(** [refl::as_tuple<T>] as written: the count is
    [fields_number_ctor<T>(0)], the [make_integer_sequence] runs over it. *)
Definition as_tuple_of (ctor_ok : nat -> bool) (depth : nat) (defs : loophole_defs) (T : cty)
  : option (list cty) :=
  match fields_number_ctor ctor_ok depth 0 with
  | Some n => as_tuple defs T n
  | None => None
  end.

(** Whatever conversions [c_op<T, N>] -> [U] overload resolution tries
    while probing [T] (in the order the compiler tries them), each
    instantiation either is removed by SFINAE or updates the definitions. *)
Fixpoint probe_conversions (defs : loophole_defs) (T : cty) (convs : list (nat * cty))
  : loophole_defs :=
  match convs with
  | [] => defs
  | (N, U) :: rest =>
      match c_op_convert defs T N U with
      | Some defs' => probe_conversions defs' T rest
      | None => probe_conversions defs T rest
      end
  end.

(** Every definition recorded for [T] has a type other than [T] (modulo
    cv-qualifiers and references). *)
Definition self_free (T : cty) (defs : loophole_defs) : Prop :=
  Forall (fun '(T', _, U) => T' = T -> remove_cvref U <> remove_cvref T) defs.

End Refl.

(** ** Build-time checks: namespace type_registry, di::add, di::get *)
Module Build.

(** What the compiler knows about a class used as [T] in [add<I, T>]:
    its bases ([std::is_base_of]), whether it is default constructible,
    and the tuple type [refl::as_tuple<T>] (the discovered
    ParameterSignature; [None] when discovery fails). *)
Record class_info := {
  ci_bases : list cty;
  ci_default_ctor : bool;
  ci_signature : option (list cty)
}.

(** Diagnostics, each naming the types of the failing instantiation. *)
Inductive diag : Type :=
| NotDetected (t : cty)            (* not_detected_in_di_container(tag_t<t>) used before its return type is deduced *)
| NoMatchingAdd (i t : cty)        (* no add<i, t> overload survives its enable_if *)
| Undiscoverable (t : cty)         (* refl::as_tuple<t> fails *)
| FailType (cls arg : cty).        (* static_assert in fail_type<cls, arg> *)

(** The template instantiations a translation unit contains, in text
    order: [add<I, T>()], [add<T>()], [get<T>()]. *)
Inductive stmt : Type :=
| SAdd (i t : cty)
| SAdd1 (t : cty)
| SGet (t : cty).

Section WithClasses.
Variable classes : cty -> class_info.

(** [internal::is_shared_ptr<T>] and [T::element_type]. *)
Definition is_shared_ptr (t : cty) : bool :=
  match t with TShared _ => true | _ => false end.

(** The enable_if of both [add<INTERFACE_T, T>] overloads, without the
    default-constructibility split. *)
Definition add_enabled (i t : cty) : bool :=
  cty_eqb i t || existsb (cty_eqb i) (ci_bases (classes t)).

(** [construct_tuple_assign<BASE_T, N, TUPLE_T>]: the [if constexpr] keeps
    exactly one branch; the discarded one is not instantiated.  A
    shared_ptr parameter is resolved through [registry<element_type>::get()]
    (its element type is returned), any other parameter instantiates
    [fail_type<BASE_T, T>] and its [static_assert(false, ...)]. *)
Definition construct_tuple_assign (base : cty) (p : cty) : diag + cty :=
  match p with
  | TShared e => inr e
  | _ => inl (FailType base p)
  end.

(** [construct_tuple<BASE_T, 0, N>]: one [construct_tuple_assign] per tuple
    index, all instantiated; the build fails with every diagnostic. *)
Fixpoint construct_tuple (base : cty) (ps : list cty) : list diag * list cty :=
  match ps with
  | [] => ([], [])
  | p :: ps' =>
      let '(errs, es) := construct_tuple base ps' in
      match construct_tuple_assign base p with
      | inl d => (d :: errs, es)
      | inr e => (errs, e :: es)
      end
  end.

(** Diagnostics of one [add<I, T>] instantiation. *)
Definition add_diags (i t : cty) : list diag :=
  if add_enabled i t then
    if ci_default_ctor (classes t) then []
    else match ci_signature (classes t) with
         | None => [Undiscoverable t]
         | Some ps => fst (construct_tuple t ps)
         end
  else [NoMatchingAdd i t].

(** [type_registry::set_type<T>()]: the ledger marks an instantiation
    makes.  [add<I, T>] calls [set_type<I>]; [add<T>] calls [set_type<T>]
    and instantiates [add<T, T>]. *)
Definition marks (st : stmt) : list cty :=
  match st with
  | SAdd i t => if add_enabled i t then [i] else []
  | SAdd1 t => [t] ++ (if add_enabled t t then [t] else [])
  | SGet _ => []
  end.

Definition ledger (text : list stmt) : list cty := flat_map marks text.

(** [type_registry::check_type<T>()]: [decltype] of the friend
    [not_detected_in_di_container(tag_t<T>)] needs its return type
    deduced, i.e. its definition in [loophole_t<T>], which only an
    instantiation of [set_type<T>] met earlier in the translation unit has
    provided; [before] is the instantiations that precede this [get<T>]. *)
Definition check_type (before : list stmt) (t : cty) : list diag :=
  if existsb (cty_eqb t) (ledger before) then [] else [NotDetected t].

Definition stmt_diags (before : list stmt) (st : stmt) : list diag :=
  match st with
  | SAdd i t => add_diags i t
  | SAdd1 t => add_diags t t
  | SGet t => check_type before t
  end.

(** The diagnostics of the instantiations [text], in text order, each
    checked against the ones before it. *)
Fixpoint diags_from (before : list stmt) (text : list stmt) : list diag :=
  match text with
  | [] => []
  | st :: rest => stmt_diags before st ++ diags_from (before ++ [st]) rest
  end.

Definition diags (text : list stmt) : list diag := diags_from [] text.

Definition compiles (text : list stmt) : bool :=
  match diags text with [] => true | _ => false end.

End WithClasses.
End Build.

(** ** Run time: di::registry<T>, di::add, di::get *)
Module Runtime.
Import Build.

(** A heap object made by [std::make_shared<T>(args...)]: its dynamic class
    and the handles its constructor received.  An address is an index into
    the heap; [static_pointer_cast] keeps the address. *)
Record object := { o_class : cty; o_args : list (option nat) }.

(** [std::shared_ptr]: [None] is the null pointer. *)
Definition ptr := option nat.

(** The lambda stored in [registry<INTERFACE_T>::constructor]: it resolves
    [f_deps] in order, then calls [make_shared<f_impl>] with the results. *)
Record factory := { f_impl : cty; f_deps : list cty }.

(** [std::once_flag]: not yet called, being called, called. *)
Inductive once_state := Unset | Running | Done.

(** The process-wide statics [registry<T>::flag], [::obj] and
    [::constructor] for every [T] (an empty [std::function] is [None]),
    and the heap. *)
Record state := {
  st_flag : cty -> once_state;
  st_obj : cty -> ptr;
  st_ctor : cty -> option factory;
  st_heap : list object
}.

Definition init : state :=
  {| st_flag := fun _ => Unset; st_obj := fun _ => None;
     st_ctor := fun _ => None; st_heap := [] |}.

Definition upd {A} (f : cty -> A) (k : cty) (v : A) : cty -> A :=
  fun x => if cty_eq_dec x k then v else f x.

Definition set_flag (t : cty) (v : once_state) (s : state) : state :=
  {| st_flag := upd (st_flag s) t v; st_obj := st_obj s;
     st_ctor := st_ctor s; st_heap := st_heap s |}.

Definition set_obj (t : cty) (v : ptr) (s : state) : state :=
  {| st_flag := st_flag s; st_obj := upd (st_obj s) t v;
     st_ctor := st_ctor s; st_heap := st_heap s |}.

Definition set_ctor (t : cty) (v : option factory) (s : state) : state :=
  {| st_flag := st_flag s; st_obj := st_obj s;
     st_ctor := upd (st_ctor s) t v; st_heap := st_heap s |}.

(** Exceptions and non-returning outcomes.  [Bad_function_call] is thrown by
    calling an empty [std::function]; [Deadlock] is [std::call_once]
    re-entered on a flag whose call is still running; [OutOfFuel] only
    bounds the recursion of the model. *)
Inductive exn := Bad_function_call.
Inductive failure := Throw (e : exn) | Deadlock | OutOfFuel.
Inductive outcome (A : Type) := Ok (a : A) | Fail (f : failure).
Arguments Ok {A} a.
Arguments Fail {A} f.

(** [std::make_shared<T>(args...)]: a new object at the end of the heap. *)
Definition make_shared (T : cty) (args : list ptr) (s : state) : ptr * state :=
  (Some (length (st_heap s)),
   {| st_flag := st_flag s; st_obj := st_obj s; st_ctor := st_ctor s;
      st_heap := st_heap s ++ [{| o_class := T; o_args := args |}] |}).

(** [construct_tuple]: [std::get<N>(tuple) = registry<E_N>::get()] for
    N = 0, 1, ... in order (the braced initializer list sequences them);
    an exception leaves the rest unevaluated. *)
Fixpoint resolve (get : cty -> state -> outcome ptr * state) (ds : list cty) (s : state)
  : outcome (list ptr) * state :=
  match ds with
  | [] => (Ok [], s)
  | d :: ds' =>
      match get d s with
      | (Ok p, s1) =>
          match resolve get ds' s1 with
          | (Ok ps, s2) => (Ok (p :: ps), s2)
          | (Fail e, s2) => (Fail e, s2)
          end
      | (Fail e, s1) => (Fail e, s1)
      end
  end.

(** [constructor()]: an empty [std::function] throws [bad_function_call];
    otherwise the lambda builds the argument tuple and calls [make_shared]. *)
Definition invoke (get : cty -> state -> outcome ptr * state) (c : option factory) (s : state)
  : outcome ptr * state :=
  match c with
  | None => (Fail (Throw Bad_function_call), s)
  | Some f =>
      match resolve get (f_deps f) s with
      | (Ok args, s1) =>
          let '(p, s2) := make_shared (f_impl f) args s1 in (Ok p, s2)
      | (Fail e, s1) => (Fail e, s1)
      end
  end.

(** [registry<T>::get()]:
    [std::call_once(flag, []() { obj = constructor(); }); return obj;].
    [call_once] on a finished flag does nothing; on a flag whose call is
    still in progress on this thread it never returns; otherwise it runs
    the lambda, and if that throws the flag stays passive and the exception
    propagates (no assignment to [obj]). *)
Fixpoint registry_get (fuel : nat) (t : cty) (s : state) : outcome ptr * state :=
  match fuel with
  | O => (Fail OutOfFuel, s)
  | S n =>
      match st_flag s t with
      | Done => (Ok (st_obj s t), s)
      | Running => (Fail Deadlock, s)
      | Unset =>
          match invoke (registry_get n) (st_ctor s t) (set_flag t Running s) with
          | (Ok p, s1) => (Ok (st_obj (set_obj t p s1) t), set_flag t Done (set_obj t p s1))
          | (Fail (Throw e), s1) => (Fail (Throw e), set_flag t Unset s1)
          | (Fail f, s1) => (Fail f, s1)
          end
      end
  end.

(** The closure [add<I, T>] stores: [make_shared<T>()] for a default
    constructible [T], otherwise one [registry<E>::get()] per element type
    of [refl::as_tuple<T>]. *)
Definition factory_of (classes : cty -> class_info) (T : cty) : factory :=
  {| f_impl := T;
     f_deps := if ci_default_ctor (classes T) then []
               else match ci_signature (classes T) with
                    | Some ps => snd (construct_tuple T ps)
                    | None => []
                    end |}.

(** [di::add<INTERFACE_T, T>()] at run time ([set_type] has no run-time
    effect): a no-op if [registry<INTERFACE_T>::constructor] is set. *)
Definition di_add (classes : cty -> class_info) (I T : cty) (s : state) : state :=
  match st_ctor s I with
  | Some _ => s
  | None => set_ctor I (Some (factory_of classes T)) s
  end.

(** [di::get<T>()] at run time: [check_type<T>] is compile-time only. *)
Definition di_get (fuel : nat) (t : cty) (s : state) : outcome ptr * state :=
  registry_get fuel t s.

(** One statement of the program as it executes ([add<T>()] is
    [add<T, T>()]); an exception escaping a statement ends the run. *)
Definition exec_stmt (classes : cty -> class_info) (fuel : nat) (st : stmt) (s : state)
  : outcome ptr * state :=
  match st with
  | SAdd i t => (Ok None, di_add classes i t s)
  | SAdd1 t => (Ok None, di_add classes t t s)
  | SGet t => di_get fuel t s
  end.

Fixpoint exec (classes : cty -> class_info) (fuel : nat) (prog : list stmt) (s : state)
  : outcome (list ptr) * state :=
  match prog with
  | [] => (Ok [], s)
  | st :: rest =>
      match exec_stmt classes fuel st s with
      | (Ok p, s1) =>
          match exec classes fuel rest s1 with
          | (Ok ps, s2) => (Ok (p :: ps), s2)
          | (Fail e, s2) => (Fail e, s2)
          end
      | (Fail e, s1) => (Fail e, s1)
      end
  end.

(** The constructor side-effect counter of a class: how many objects of
    it have been made. *)
Definition ctor_count (T : cty) (s : state) : nat :=
  length (filter (fun o => cty_eqb (o_class o) T) (st_heap s)).

(** A program: the instantiations its text contains, and the statements
    in the order they execute (each one of them is in the text). *)
Record program := { p_text : list stmt; p_main : list stmt }.

(** The registry only grows: factories are never changed by [get], the heap
    is only appended to, and a realized binding keeps its flag and handle. *)
Definition extends (s s' : state) : Prop :=
  st_ctor s' = st_ctor s /\ (exists h, st_heap s' = st_heap s ++ h) /\
  (forall u, st_flag s u = Done -> st_flag s' u = Done /\ st_obj s' u = st_obj s u).

(** Well-formed registry: a realized binding has a factory, and its
    handle points to a heap object of the factory's implementation class. *)
Definition wf (s : state) : Prop :=
  forall u, st_flag s u = Done ->
  exists f a o, st_ctor s u = Some f /\ st_obj s u = Some a /\
    nth_error (st_heap s) a = Some o /\ o_class o = f_impl f.

(** [u] is [t] itself or a type [t]'s factory depends on, directly or
    through the stored factories [C] of its dependencies. *)
Inductive dep_reach (C : cty -> option factory) (t : cty) : cty -> Prop :=
| dep_refl : dep_reach C t t
| dep_step u f d : dep_reach C t u -> C u = Some f -> In d (f_deps f) -> dep_reach C t d.
Arguments dep_refl {C t}.

(** The states a process can be in after start-up and any sequence of
    [add]s and [get]s, each run whatever the previous one ended in (an
    exception caught by the caller included). *)
Inductive run_state (classes : cty -> class_info) : state -> Prop :=
| run_init : run_state classes init
| run_step fuel st s r s' :
    run_state classes s -> exec_stmt classes fuel st s = (r, s') -> run_state classes s'.

(** Every object made between [s] and [s'] is the cached handle of a
    binding realized between them. *)
Definition new_objects_cached (s s' : state) : Prop :=
  forall x, length (st_heap s) <= x < length (st_heap s') ->
  exists u, st_flag s u <> Done /\ st_flag s' u = Done /\ st_obj s' u = Some x.

(** No two realized bindings cache the same object. *)
Definition handles_distinct (s : state) : Prop :=
  forall u v a, st_flag s u = Done -> st_flag s v = Done ->
  st_obj s u = Some a -> st_obj s v = Some a -> u = v.

(** [S] is a set of unrealized bindings whose factories each depend on a
    member of [S]: the bindings of a dependency cycle. *)
Definition stuck (S : cty -> Prop) (s : state) : Prop :=
  forall u, S u -> st_flag s u <> Done /\
  exists f, st_ctor s u = Some f /\ exists d, In d (f_deps f) /\ S d.

(** A call that returns or throws, rather than blocking. *)
Definition completes {A} (r : outcome A) : bool :=
  match r with Ok _ => true | Fail (Throw _) => true | Fail _ => false end.

(** Operations that never touch a realized binding. *)
Definition done_kept (s s' : state) : Prop :=
  forall u, st_flag s u = Done -> st_flag s' u = Done /\ st_obj s' u = st_obj s u.

End Runtime.

(** ** Concrete translation units used below *)
Module Scenarios.

(** A struct with two fields and no user-provided constructor:
    [T{}], [T{a}], [T{a, b}] are well formed, [T{a, b, c}] is not. *)
Definition aggregate2_list_init (n : nat) : bool := n <=? 2.

(** The same struct constructed with parentheses: [T()] value-initialises
    it, and since C++20 [T(a)] and [T(a, b)] aggregate-initialise it. *)
Definition aggregate2_paren_init (n : nat) : bool := n <=? 2.

(** The types list-initialisation probing records for its two fields, an
    [std::shared_ptr<TClass 1>] and an [int]. *)
Definition aggregate2_probed : Refl.loophole_defs :=
  [(TClass 7, 0, TShared (TClass 1)); (TClass 7, 1, TInt)].

Definition ledger_demo_classes (t : cty) : Build.class_info :=
  {| Build.ci_bases := []; Build.ci_default_ctor := true; Build.ci_signature := Some [] |}.

(** Two classes: [TClass 10] with constructor [(std::shared_ptr<TClass 11>)],
    and the default-constructible [TClass 11]. *)
Definition wiring_classes (t : cty) : Build.class_info :=
  if cty_eq_dec t (TClass 10) then
    {| Build.ci_bases := []; Build.ci_default_ctor := false;
       Build.ci_signature := Some [TShared (TClass 11)] |}
  else {| Build.ci_bases := []; Build.ci_default_ctor := true; Build.ci_signature := Some [] |}.

(** The wiring of the concrete scenario: [TClass 10] ("Service") takes a
    [std::shared_ptr<TClass 11>], [TClass 11] ("Logger") is default
    constructible ([wiring_classes] above).  Here only [add<Service>()] has
    run when [get<Service>()] is first called; [add<Logger>()] runs after. *)
Definition service_added : Runtime.state :=
  Runtime.di_add wiring_classes (TClass 10) (TClass 10) Runtime.init.

(** Default constructible classes implementing the interfaces [TClass 20]
    and [TClass 30]. *)
Definition impl_classes (t : cty) : Build.class_info :=
  {| Build.ci_bases := [TClass 20; TClass 30]; Build.ci_default_ctor := true; Build.ci_signature := Some [] |}.

(** Both [add<Service>()] and [add<Logger>()] have run. *)
Definition service_and_logger_added : Runtime.state :=
  Runtime.di_add wiring_classes (TClass 11) (TClass 11) service_added.

(** A rank for that wiring: Service above Logger. *)
Definition rk_w (u : cty) : nat := if cty_eqb u (TClass 10) then 1 else 0.

(** A translation unit whose text holds [add<Logger>()] before
    [get<Logger>()] (e.g. inside a helper function defined first), while
    [main] calls [get<Logger>()] before calling the helper. *)
Definition logger_late : Runtime.program :=
  {| Runtime.p_text := [Build.SAdd1 (TClass 11); Build.SGet (TClass 11)];
     Runtime.p_main := [Build.SGet (TClass 11); Build.SAdd1 (TClass 11)] |}.

(** Two classes whose constructors take each other:
    [TClass 40(std::shared_ptr<TClass 41>)] and
    [TClass 41(std::shared_ptr<TClass 40>)]. *)
Definition cyclic_classes (t : cty) : Build.class_info :=
  if cty_eq_dec t (TClass 40) then
    {| Build.ci_bases := []; Build.ci_default_ctor := false;
       Build.ci_signature := Some [TShared (TClass 41)] |}
  else if cty_eq_dec t (TClass 41) then
    {| Build.ci_bases := []; Build.ci_default_ctor := false;
       Build.ci_signature := Some [TShared (TClass 40)] |}
  else {| Build.ci_bases := []; Build.ci_default_ctor := true; Build.ci_signature := Some [] |}.

(** [add<TClass 40>()] and [add<TClass 41>()] have run. *)
Definition cycle_added : Runtime.state :=
  Runtime.di_add cyclic_classes (TClass 41) (TClass 41)
    (Runtime.di_add cyclic_classes (TClass 40) (TClass 40) Runtime.init).

End Scenarios.

(** * Properties *)
Import Scenarios.

(** ** Signature discovery *)

Lemma fields_number_ctor_spec (ctor_ok : nat -> bool) (depth n k : nat) :
  Refl.fields_number_ctor ctor_ok depth n = Some k <->
  (n <= k /\ k <= n + depth /\ ctor_ok k = true /\
   forall m, n <= m < k -> ctor_ok m = false).
Proof.
  revert n; induction depth as [|d IH]; intros n; simpl.
  - destruct (ctor_ok n) eqn:E; split.
    + intros H; injection H as <-; repeat split; try lia; auto.
    + intros (H1 & H2 & _); f_equal; lia.
    + discriminate.
    + intros (H1 & H2 & H3 & _); assert (k = n) by lia; subst; congruence.
  - destruct (ctor_ok n) eqn:E.
    + split.
      * intros H; injection H as <-; repeat split; try lia; auto.
      * intros (H1 & H2 & H3 & H4).
        destruct (Nat.eq_dec n k) as [->|Hne]; [reflexivity|].
        rewrite H4 in E by lia; discriminate.
    + rewrite IH; split.
      * intros (H1 & H2 & H3 & H4); repeat split; try lia; auto.
        intros m Hm; destruct (Nat.eq_dec m n) as [->|]; auto; apply H4; lia.
      * intros (H1 & H2 & H3 & H4).
        assert (n <> k) by (intros ->; congruence).
        repeat split; try lia; auto.
        intros m Hm; apply H4; lia.
Qed.

(** C6: constructor-arity probing ([fields_number_ctor<T>(0)]) returns
    exactly the smallest probe count [k] for which parenthesised
    construction of [T] from [k] probes succeeds: it returns [k] iff
    construction succeeds at [k] and fails at every smaller count (and [k]
    is within the instantiation depth), so a longer viable constructor is
    never reached. *)
Theorem fields_number_ctor_first_success (ctor_ok : nat -> bool) (depth k : nat) :
  Refl.fields_number_ctor ctor_ok depth 0 = Some k <->
  (ctor_ok k = true /\ (forall m, m < k -> ctor_ok m = false) /\ k <= depth).
Proof.
  rewrite fields_number_ctor_spec; split.
  - intros (_ & H2 & H3 & H4); split; [exact H3|]; split; [|lia].
    intros m Hm; apply H4; lia.
  - intros (H1 & H2 & H3); split; [lia|]; split; [lia|]; split; [exact H1|].
    intros m Hm; apply H2; lia.
Qed.


(** C7 (counterexample): for the two-field aggregate the largest probe
    count for which list-initialisation succeeds is 2, yet [fields_number]
    returns 2, not 2 - 1; and the ParameterSignature [as_tuple<T>] is not
    formed from the types list-initialisation probing recorded for the
    fields: it is read over [fields_number_ctor<T>(0)], which is 0 for the
    aggregate ([T()] is well formed), so it is empty. *)
Lemma fields_number_aggregate2_not_largest_minus_one :
  (forall m, aggregate2_list_init m = true -> m <= 2) /\
  aggregate2_list_init 2 = true /\
  Refl.fields_number aggregate2_list_init 10 0 = Some 2%Z /\
  Refl.fields_number aggregate2_list_init 10 0 <> Some (Z.of_nat 2 - 1)%Z /\
  Refl.read_back aggregate2_probed (TClass 7) 0 2 = Some [TShared (TClass 1); TInt] /\
  Refl.as_tuple_of aggregate2_paren_init 10 aggregate2_probed (TClass 7) = Some [] /\
  Refl.as_tuple_of aggregate2_paren_init 10 aggregate2_probed (TClass 7)
    <> Some [TShared (TClass 1); TInt].
Proof.
  split; [intros m Hm; unfold aggregate2_list_init in Hm; apply Nat.leb_le in Hm; exact Hm|].
  split; [reflexivity|].
  split; [reflexivity|].
  split; [vm_compute; discriminate|].
  split; [reflexivity|].
  split; [reflexivity|].
  vm_compute; discriminate.
Qed.

Lemma fields_number_spec (ok : nat -> bool) (depth n : nat) (r : Z) :
  Refl.fields_number ok depth n = Some r ->
  exists k, n <= k /\ r = (Z.of_nat k - 1)%Z /\ ok k = false /\
            (forall m, n <= m < k -> ok m = true).
Proof.
  revert n; induction depth as [|d IH]; intros n; simpl.
  - destruct (ok n) eqn:E; [discriminate|].
    intros H; injection H as <-; exists n; repeat split; auto; intros m Hm; lia.
  - destruct (ok n) eqn:E.
    + intros H; destruct (IH _ H) as (k & H1 & H2 & H3 & H4).
      exists k; repeat split; auto; try lia.
      intros m Hm; destruct (Nat.eq_dec m n) as [->|]; auto; apply H4; lia.
    + intros H; injection H as <-; exists n; repeat split; auto; intros m Hm; lia.
Qed.

Lemma read_back_spec defs T i n Us :
  Refl.read_back defs T i n = Some Us ->
  length Us = n /\ forall j, j < n -> nth_error Us j = Refl.loophole defs T (i + j).
Proof.
  revert i Us; induction n as [|n IH]; intros i Us; simpl.
  - intros H; injection H as <-; split; [reflexivity|intros j Hj; lia].
  - destruct (Refl.loophole defs T i) as [U|] eqn:E1; [|discriminate].
    destruct (Refl.read_back defs T (S i) n) as [Us'|] eqn:E2; [|discriminate].
    intros H; injection H as <-.
    destruct (IH _ _ E2) as [Hl Hn]; split; [simpl; congruence|].
    intros [|j] Hj; simpl.
    + rewrite Nat.add_0_r; congruence.
    + rewrite Hn by lia; f_equal; lia.
Qed.

(** C7 (amended): [fields_number<T>(0)] returns [k - 1] where [k] is the
    first probe count at which list-initialisation fails, i.e. the largest
    count [n] such that every count [0..n] succeeds (for an aggregate, its
    field count); the ParameterSignature [as_tuple<T>] is read over the
    count [fields_number_ctor<T>(0)] returns, the smallest count at which
    parenthesised construction succeeds: it holds the recorded types back
    in index order, one per index below that count. *)
Theorem fields_number_first_failure (list_init_ok ctor_ok : nat -> bool) (depth : nat) (r : Z)
    (defs : Refl.loophole_defs) (T : cty) (Us : list cty) :
  Refl.fields_number list_init_ok depth 0 = Some r ->
  Refl.as_tuple_of ctor_ok depth defs T = Some Us ->
  (exists k, r = (Z.of_nat k - 1)%Z /\ list_init_ok k = false /\
             (forall m, m < k -> list_init_ok m = true)) /\
  (exists n, Refl.fields_number_ctor ctor_ok depth 0 = Some n /\
     ctor_ok n = true /\ (forall m, m < n -> ctor_ok m = false) /\
     length Us = n /\ (forall i, i < n -> nth_error Us i = Refl.loophole defs T i)).
Proof.
  intros H1 H2.
  destruct (fields_number_spec _ _ _ _ H1) as (k & _ & Hr & Hk & Hm).
  split; [exists k; repeat split; auto; intros m Hlt; apply Hm; lia|].
  unfold Refl.as_tuple_of in H2.
  destruct (Refl.fields_number_ctor ctor_ok depth 0) as [n|] eqn:Hn; [|discriminate].
  destruct (proj1 (fields_number_ctor_spec _ _ _ _) Hn) as (_ & _ & Hok & Hlt).
  destruct (read_back_spec _ _ _ _ _ H2) as [Hl Hnth].
  exists n; split; [reflexivity|split; [exact Hok|split]].
  - intros m Hm'; apply Hlt; lia.
  - split; [exact Hl|exact Hnth].
Qed.

Lemma fields_number_first_failure_witness :
  Refl.fields_number aggregate2_list_init 10 0 = Some 2%Z /\
  Refl.as_tuple_of aggregate2_paren_init 10 aggregate2_probed (TClass 7) = Some [] /\
  ((exists k, 2%Z = (Z.of_nat k - 1)%Z /\ aggregate2_list_init k = false /\
              (forall m, m < k -> aggregate2_list_init m = true)) /\
   (exists n, Refl.fields_number_ctor aggregate2_paren_init 10 0 = Some n /\
      aggregate2_paren_init n = true /\ (forall m, m < n -> aggregate2_paren_init m = false) /\
      length (@nil cty) = n /\
      (forall i, i < n -> nth_error (@nil cty) i = Refl.loophole aggregate2_probed (TClass 7) i))).
Proof.
  split; [reflexivity|]. split; [reflexivity|].
  apply (fields_number_first_failure aggregate2_list_init aggregate2_paren_init 10 2%Z); reflexivity.
Defined.


Lemma c_op_convert_self T N U defs :
  remove_cvref U = remove_cvref T -> Refl.c_op_convert defs T N U = None.
Proof.
  intros H; unfold Refl.c_op_convert, Refl.fn_def_enabled.
  rewrite H; unfold cty_eqb; destruct (cty_eq_dec _ _); [reflexivity|congruence].
Qed.

Lemma c_op_convert_self_free T N U defs defs' :
  Refl.self_free T defs -> Refl.c_op_convert defs T N U = Some defs' -> Refl.self_free T defs'.
Proof.
  unfold Refl.c_op_convert, Refl.fn_def_enabled.
  destruct (cty_eqb (remove_cvref T) (remove_cvref U)) eqn:E; simpl; [discriminate|].
  intros Hs H; injection H as <-.
  destruct (Refl.cloophole_defined defs T N); [exact Hs|].
  unfold Refl.self_free; apply Forall_app; split; [exact Hs|].
  constructor; [|constructor].
  intros _ Heq; rewrite Heq in E; unfold cty_eqb in E;
    destruct (cty_eq_dec _ _); congruence.
Qed.

Lemma probe_conversions_self_free T convs defs :
  Refl.self_free T defs -> Refl.self_free T (Refl.probe_conversions defs T convs).
Proof.
  revert defs; induction convs as [|[N U] rest IH]; intros defs Hs; simpl; auto.
  destruct (Refl.c_op_convert defs T N U) eqn:E; apply IH; auto.
  eapply c_op_convert_self_free; eauto.
Qed.

Lemma loophole_self_free T defs N U :
  Refl.self_free T defs -> Refl.loophole defs T N = Some U -> remove_cvref U <> remove_cvref T.
Proof.
  unfold Refl.loophole; intros Hs H.
  destruct (find _ defs) as [[[T' N'] U']|] eqn:E; [|discriminate].
  injection H as <-.
  apply find_some in E as [Hin Hp].
  apply andb_true_iff in Hp as [Hp _]; apply cty_eqb_eq in Hp.
  unfold Refl.self_free in Hs; rewrite Forall_forall in Hs.
  exact (Hs _ Hin Hp).
Qed.

Lemma read_back_self_free T defs i n Us U :
  Refl.self_free T defs -> Refl.read_back defs T i n = Some Us -> In U Us ->
  remove_cvref U <> remove_cvref T.
Proof.
  revert i Us; induction n as [|n IH]; intros i Us Hs; simpl.
  - intros H; injection H as <-; intros [].
  - destruct (Refl.loophole defs T i) as [V|] eqn:E1; [|discriminate].
    destruct (Refl.read_back defs T (S i) n) as [Us'|] eqn:E2; [|discriminate].
    intros H; injection H as <-; intros [<-|Hin].
    + eapply loophole_self_free; eauto.
    + eapply IH; eauto.
Qed.

Lemma probe_params_self T i ps defs :
  (exists P, In P ps /\ remove_cvref (Refl.deduced_U P) = remove_cvref T) ->
  Refl.probe_params defs T i ps = None.
Proof.
  revert i defs; induction ps as [|P ps IH]; intros i defs (Q & Hin & HQ); simpl.
  - destruct Hin.
  - destruct Hin as [<-|Hin].
    + rewrite c_op_convert_self by exact HQ; reflexivity.
    + destruct (Refl.c_op_convert defs T i (Refl.deduced_U P)); auto.
      destruct (Refl.probe_binds P); auto.
      apply IH; eauto.
Qed.

(** C9: the probe [c_op<T, N>] has no conversion to [T] itself (modulo cv
    and references: [fn_def]'s [enable_if] removes [operator U()] for such
    [U]); hence a constructor of a class [T] with a parameter of type [T],
    [const T&] or [T&&] (copy or move constructor) is never viable with
    probes, and whatever conversions the compiler tries, no type recorded
    for [T], and so no element of the discovered signature, is [T]. *)
Theorem probes_never_convert_to_self :
  (forall defs T N U, remove_cvref U = remove_cvref T -> Refl.c_op_convert defs T N U = None) /\
  (forall defs id i ps,
      (In (TClass id) ps \/ In (TLRef (TConst (TClass id))) ps \/ In (TRRef (TClass id)) ps) ->
      Refl.probe_params defs (TClass id) i ps = None) /\
  (forall T convs n Us U,
      Refl.as_tuple (Refl.probe_conversions [] T convs) T n = Some Us -> In U Us ->
      remove_cvref U <> remove_cvref T).
Proof.
  split; [intros; apply c_op_convert_self; assumption|split].
  - intros defs id i ps H; apply probe_params_self.
    destruct H as [H|[H|H]]; eexists; split; eauto.
  - intros T convs n Us U H Hin.
    eapply read_back_self_free; [|exact H|exact Hin].
    apply probe_conversions_self_free; constructor.
Qed.

(** ** Build-time checks *)

Lemma marks_interface classes st t :
  In t (Build.marks classes st) -> (exists u, st = Build.SAdd t u) \/ st = Build.SAdd1 t.
Proof.
  destruct st as [i u|u|u]; simpl.
  - destruct (Build.add_enabled classes i u); simpl; [|intros []].
    intros [->|[]]; left; eauto.
  - destruct (Build.add_enabled classes u u); simpl; intros H; right;
      repeat destruct H as [H|H]; subst; auto; destruct H.
  - intros [].
Qed.

Lemma diags_from_app classes before l1 l2 :
  Build.diags_from classes before (l1 ++ l2) =
  Build.diags_from classes before l1 ++ Build.diags_from classes (before ++ l1) l2.
Proof.
  revert before; induction l1 as [|st l1 IH]; intros before; simpl.
  - rewrite app_nil_r; reflexivity.
  - rewrite IH, <- app_assoc, <- app_assoc; reflexivity.
Qed.

Lemma in_diags classes pre st post d :
  In d (Build.stmt_diags classes pre st) -> In d (Build.diags classes (pre ++ st :: post)).
Proof.
  intros H; unfold Build.diags; rewrite diags_from_app; simpl.
  apply in_or_app; right; apply in_or_app; left; exact H.
Qed.

(** C4: a [get<T>()] in a translation unit compiles only if some
    [add<T, ...>()] or [add<T>()] in it marked [T] in the ledger
    ([set_type<T>]); without such a mark the build fails with the
    diagnostic of [check_type<T>], which names [T]. *)
Theorem get_requires_ledger_mark (classes : cty -> Build.class_info)
    (text : list Build.stmt) (t : cty) :
  In (Build.SGet t) text ->
  (Build.compiles classes text = true ->
   exists st, In st text /\ In t (Build.marks classes st) /\
              ((exists u, st = Build.SAdd t u) \/ st = Build.SAdd1 t)) /\
  ((~ exists st, In st text /\ In t (Build.marks classes st)) ->
   In (Build.NotDetected t) (Build.diags classes text)).
Proof.
  intros Hget; apply in_split in Hget as (pre & post & ->).
  assert (Hpre : existsb (cty_eqb t) (Build.ledger classes pre) = true ->
                 exists st, In st (pre ++ Build.SGet t :: post) /\ In t (Build.marks classes st)).
  { intros E; apply existsb_exists in E as (x & Hx & Hxe); apply cty_eqb_eq in Hxe; subst x.
    unfold Build.ledger in Hx; apply in_flat_map in Hx as (st & Hst & Ht).
    exists st; split; [apply in_or_app; left; exact Hst|exact Ht]. }
  assert (Hnd : existsb (cty_eqb t) (Build.ledger classes pre) = false ->
                In (Build.NotDetected t) (Build.diags classes (pre ++ Build.SGet t :: post))).
  { intros E; apply in_diags; simpl; unfold Build.check_type; rewrite E; left; reflexivity. }
  split.
  - intros Hc.
    destruct (existsb (cty_eqb t) (Build.ledger classes pre)) eqn:E.
    + destruct (Hpre eq_refl) as (st & Hst & Ht).
      exists st; repeat split; auto; eapply marks_interface; eauto.
    + specialize (Hnd eq_refl).
      unfold Build.compiles in Hc; destruct (Build.diags classes _); [destruct Hnd|discriminate].
  - intros Hno; destruct (existsb (cty_eqb t) (Build.ledger classes pre)) eqn:E.
    + exfalso; exact (Hno (Hpre eq_refl)).
    + exact (Hnd eq_refl).
Qed.


Lemma get_requires_ledger_mark_witness :
  In (Build.SGet (TClass 3)) [Build.SGet (TClass 3)] /\
  In (Build.NotDetected (TClass 3)) (Build.diags ledger_demo_classes [Build.SGet (TClass 3)]).
Proof.
  split; [left; reflexivity|].
  apply (get_requires_ledger_mark ledger_demo_classes [Build.SGet (TClass 3)] (TClass 3));
    [left; reflexivity|].
  intros (st & [<-|[]] & Hm); destruct Hm.
Defined.

Lemma construct_tuple_diags base ps d :
  In d (fst (Build.construct_tuple base ps)) <->
  exists p, In p ps /\ Build.is_shared_ptr p = false /\ d = Build.FailType base p.
Proof.
  induction ps as [|p ps IH]; simpl.
  - split; [intros []|intros (p & [] & _)].
  - destruct (Build.construct_tuple base ps) as [errs es]; simpl in *.
    destruct p; simpl; split.
    all: first
      [ intros [<-|H]; [eexists; split; [left; reflexivity|split; reflexivity]|];
        apply IH in H as (q & Hq & Hq1 & Hq2); exists q; auto
      | intros (q & [<-|Hq] & Hq1 & Hq2); [left; congruence|right; apply IH; eauto]
      | intros H; apply IH in H as (q & Hq & Hq1 & Hq2); exists q; auto
      | intros (q & [<-|Hq] & Hq1 & Hq2); [discriminate|apply IH; eauto] ].
Qed.

Lemma construct_tuple_elements base ps :
  Forall (fun p => Build.is_shared_ptr p = true) ps ->
  ps = map TShared (snd (Build.construct_tuple base ps)).
Proof.
  induction 1 as [|p ps Hp _ IH]; simpl; auto.
  destruct (Build.construct_tuple base ps) as [errs es]; simpl in *.
  destruct p; try discriminate; simpl; congruence.
Qed.

Lemma registry_get_done n t s :
  Runtime.st_flag s t = Runtime.Done ->
  Runtime.registry_get (S n) t s = (Runtime.Ok (Runtime.st_obj s t), s).
Proof. intros H; simpl; rewrite H; reflexivity. Qed.

Lemma resolve_done n ds s :
  (forall e, In e ds -> Runtime.st_flag s e = Runtime.Done) ->
  Runtime.resolve (Runtime.registry_get (S n)) ds s = (Runtime.Ok (map (Runtime.st_obj s) ds), s).
Proof.
  induction ds as [|d ds IH]; intros H; cbn [Runtime.resolve map]; auto.
  rewrite (registry_get_done n d s (H d (or_introl eq_refl))).
  rewrite IH by (intros e He; apply H; right; exact He); reflexivity.
Qed.

(** C8: for a registered implementation [T] without a default constructor,
    the build diagnostics of [add<I, T>] are exactly one
    [fail_type<T, P>] per parameter type [P] of its discovered signature
    that is not a [std::shared_ptr]; when all parameters are handles there
    is no diagnostic, the factory's dependencies are the element types in
    signature order, and it passes the handle of each one's registry
    entry, position by position, to [T]'s constructor. *)
Theorem non_handle_parameter_fails_build (classes : cty -> Build.class_info)
    (I T : cty) (ps : list cty) :
  Build.add_enabled classes I T = true ->
  Build.ci_default_ctor (classes T) = false ->
  Build.ci_signature (classes T) = Some ps ->
  (forall d, In d (Build.add_diags classes I T) <->
             exists p, In p ps /\ Build.is_shared_ptr p = false /\ d = Build.FailType T p) /\
  (Forall (fun p => Build.is_shared_ptr p = true) ps ->
   Build.add_diags classes I T = [] /\
   exists es, ps = map TShared es /\ Runtime.f_deps (Runtime.factory_of classes T) = es /\
     forall fuel s, (forall e, In e es -> Runtime.st_flag s e = Runtime.Done) ->
       Runtime.invoke (Runtime.registry_get (S fuel)) (Some (Runtime.factory_of classes T)) s =
       (Runtime.Ok (Some (length (Runtime.st_heap s))),
        snd (Runtime.make_shared T (map (Runtime.st_obj s) es) s))).
Proof.
  intros He Hd Hs.
  assert (Hdiag : Build.add_diags classes I T = fst (Build.construct_tuple T ps)).
  { unfold Build.add_diags; rewrite He, Hd, Hs; reflexivity. }
  split.
  - intros d; rewrite Hdiag; apply construct_tuple_diags.
  - intros Hall; split.
    + rewrite Hdiag; destruct (fst (Build.construct_tuple T ps)) as [|d ds] eqn:E; auto.
      assert (Hin : In d (fst (Build.construct_tuple T ps))) by (rewrite E; left; auto).
      apply construct_tuple_diags in Hin as (p & Hp & Hp1 & _).
      rewrite Forall_forall in Hall; rewrite Hall in Hp1 by exact Hp; discriminate.
    + exists (snd (Build.construct_tuple T ps)); split; [apply construct_tuple_elements; auto|].
      assert (Hf : Runtime.f_deps (Runtime.factory_of classes T) = snd (Build.construct_tuple T ps)).
      { unfold Runtime.factory_of; simpl; rewrite Hd, Hs; reflexivity. }
      split; [exact Hf|].
      intros fuel s Hdone; unfold Runtime.invoke.
      rewrite Hf, resolve_done by exact Hdone; reflexivity.
Qed.


Lemma non_handle_parameter_fails_build_witness :
  Build.add_diags wiring_classes (TClass 10) (TClass 10) = [] /\
  Runtime.f_deps (Runtime.factory_of wiring_classes (TClass 10)) = [TClass 11].
Proof.
  destruct (non_handle_parameter_fails_build wiring_classes (TClass 10) (TClass 10)
              [TShared (TClass 11)] eq_refl eq_refl eq_refl) as [_ H].
  destruct H as [H1 (es & Hes & Hf & _)]; [repeat constructor|].
  split; [exact H1|]. rewrite Hf.
  destruct es as [|e [|]]; simpl in Hes; try discriminate.
  injection Hes as <-; reflexivity.
Defined.

(** ** Run time: invariants of registry<T>::get *)
Section RuntimeFacts.
Import Runtime.

Lemma invoke_ok g c s p s' :
  invoke g c s = (Ok p, s') ->
  exists f args s1, c = Some f /\ resolve g (f_deps f) s = (Ok args, s1) /\
    p = Some (length (st_heap s1)) /\ s' = snd (make_shared (f_impl f) args s1).
Proof.
  unfold invoke; destruct c as [f|]; [|discriminate].
  destruct (resolve g (f_deps f) s) as [[args|e] s1] eqn:E; [|discriminate].
  intros H; injection H as <- <-; exists f, args, s1; auto.
Qed.

Lemma invoke_fail g c s e s' :
  invoke g c s = (Fail e, s') ->
  (c = None /\ e = Throw Bad_function_call /\ s' = s) \/
  (exists f, c = Some f /\ resolve g (f_deps f) s = (Fail e, s')).
Proof.
  unfold invoke; destruct c as [f|].
  - destruct (resolve g (f_deps f) s) as [[args|e'] s1] eqn:E; [discriminate|].
    intros H; injection H as <- <-; right; eauto.
  - intros H; injection H as <- <-; left; auto.
Qed.

Section Preorder.
Variable R : state -> state -> Prop.
Hypothesis R_refl : forall s, R s s.
Hypothesis R_trans : forall a b c, R a b -> R b c -> R a c.

Lemma resolve_pres (g : cty -> state -> outcome ptr * state) :
  (forall d s r s', g d s = (r, s') -> R s s') ->
  forall ds s r s', resolve g ds s = (r, s') -> R s s'.
Proof.
  intros Hg ds; induction ds as [|d ds IH]; intros s r s'; simpl.
  - intros H; injection H as _ <-; apply R_refl.
  - destruct (g d s) as [[p|e] s1] eqn:E1.
    + destruct (resolve g ds s1) as [[ps|e] s2] eqn:E2; intros H; injection H as _ <-;
        apply (R_trans s s1 s2); [eapply Hg; eauto|eapply IH; eauto| eapply Hg; eauto|eapply IH; eauto].
    + intros H; injection H as _ <-; eapply Hg; eauto.
Qed.

Lemma invoke_pres (g : cty -> state -> outcome ptr * state) :
  (forall d s r s', g d s = (r, s') -> R s s') ->
  (forall T args s, R s (snd (make_shared T args s))) ->
  forall c s r s', invoke g c s = (r, s') -> R s s'.
Proof.
  intros Hg Hmk c s r s' H; destruct r as [p|e].
  - apply invoke_ok in H as (f & args & s1 & _ & Hr & _ & ->).
    eapply R_trans; [eapply resolve_pres; eauto|apply Hmk].
  - apply invoke_fail in H as [(_ & _ & ->)|(f & _ & Hr)]; [apply R_refl|].
    eapply resolve_pres; eauto.
Qed.
End Preorder.


Lemma extends_refl s : extends s s.
Proof. split; [auto|split; [exists []; rewrite app_nil_r; auto|auto]]. Qed.

Lemma extends_trans a b c : extends a b -> extends b c -> extends a c.
Proof.
  intros (H1 & (h1 & H2) & H3) (G1 & (h2 & G2) & G3); split; [congruence|split].
  - exists (h1 ++ h2); rewrite G2, H2, app_assoc; auto.
  - intros u Hu; destruct (H3 u Hu) as [A B]; destruct (G3 u A); split; congruence.
Qed.

Lemma extends_make_shared T args s : extends s (snd (make_shared T args s)).
Proof. split; [auto|split; [eexists; reflexivity|auto]]. Qed.

Lemma upd_neq {A} (f : cty -> A) k v x : x <> k -> upd f k v x = f x.
Proof. intros H; unfold upd; destruct (cty_eq_dec x k); congruence. Qed.

Lemma upd_eq {A} (f : cty -> A) k v : upd f k v k = v.
Proof. unfold upd; destruct (cty_eq_dec k k); congruence. Qed.

Lemma registry_get_extends fuel t s r s' :
  registry_get fuel t s = (r, s') -> extends s s'.
Proof.
  revert t s r s'; induction fuel as [|n IH]; intros t s r s'; simpl.
  - intros H; injection H as _ <-; apply extends_refl.
  - destruct (st_flag s t) eqn:Ef.
    + destruct (invoke (registry_get n) (st_ctor s t) (set_flag t Running s)) as [r1 s1] eqn:Ei.
      assert (Hx : extends (set_flag t Running s) s1).
      { eapply invoke_pres; [exact extends_refl|exact extends_trans| |exact extends_make_shared|exact Ei].
        intros; eapply IH; eauto. }
      destruct Hx as (Hc & (h & Hh) & Hd); simpl in Hc, Hh.
      assert (Hs : forall s2 : state, st_ctor s2 = st_ctor s1 -> st_heap s2 = st_heap s1 ->
                  (forall u, u <> t -> st_flag s2 u = st_flag s1 u /\ st_obj s2 u = st_obj s1 u) ->
                  extends s s2).
      { intros s2 E1 E2 E3; split; [congruence|split; [exists h; congruence|]].
        intros u Hu; assert (u <> t) by congruence.
        destruct (Hd u) as [A B]; [simpl; rewrite upd_neq; auto|].
        destruct (E3 u H); simpl in B; split; congruence. }
      destruct r1 as [p|[e| |]]; intros H; injection H as _ <-; apply Hs; auto;
        intros u Hu; simpl; rewrite ?(upd_neq _ _ _ _ Hu); auto.
    + intros H; injection H as _ <-; apply extends_refl.
    + intros H; injection H as _ <-; apply extends_refl.
Qed.

Lemma resolve_extends n ds s r s' :
  resolve (registry_get n) ds s = (r, s') -> extends s s'.
Proof.
  apply resolve_pres; [exact extends_refl|exact extends_trans|].
  intros; eapply registry_get_extends; eauto.
Qed.


Lemma wf_make_shared T args s : wf s -> wf (snd (make_shared T args s)).
Proof.
  intros H u Hu; destruct (H u Hu) as (f & a & o & H1 & H2 & H3 & H4).
  exists f, a, o; simpl; repeat split; auto.
  rewrite nth_error_app1; auto; apply nth_error_Some; congruence.
Qed.

Lemma registry_get_unset_ok fuel t s p s' :
  st_flag s t = Unset -> registry_get fuel t s = (Ok p, s') ->
  exists n f args s1, fuel = S n /\ st_ctor s t = Some f /\
    resolve (registry_get n) (f_deps f) (set_flag t Running s) = (Ok args, s1) /\
    p = Some (length (st_heap s1)) /\
    s' = set_flag t Done (set_obj t p (snd (make_shared (f_impl f) args s1))).
Proof.
  intros Hf; destruct fuel as [|n]; simpl; [discriminate|]; rewrite Hf.
  destruct (invoke (registry_get n) (st_ctor s t) (set_flag t Running s)) as [[q|[e| |]] s1] eqn:E;
    try discriminate.
  - intros H; injection H as <- <-.
    apply invoke_ok in E as (f & args & s2 & Hc & Hr & -> & ->).
    exists n, f, args, s2; simpl in Hc; repeat split; auto;
      rewrite upd_eq; reflexivity.
Qed.

Lemma registry_get_wf fuel t s r s' : wf s -> registry_get fuel t s = (r, s') -> wf s'.
Proof.
  revert t s r s'; induction fuel as [|n IH]; intros t s r s' Hw; simpl.
  - intros H; injection H as _ <-; exact Hw.
  - destruct (st_flag s t) eqn:Ef; [|intros H; injection H as _ <-; exact Hw ..].
    assert (Hw0 : wf (set_flag t Running s)).
    { intros u Hu; simpl in Hu; destruct (cty_eq_dec u t) as [->|Hne];
        [rewrite upd_eq in Hu; discriminate|rewrite upd_neq in Hu by exact Hne].
      exact (Hw u Hu). }
    destruct (invoke (registry_get n) (st_ctor s t) (set_flag t Running s)) as [r1 s1] eqn:Ei.
    assert (Hw1 : wf s1).
    { revert Hw0.
      refine (invoke_pres (fun a b => wf a -> wf b) (fun _ H => H)
                (fun a b c H1 H2 H => H2 (H1 H)) (registry_get n) _ _ _ _ _ _ Ei).
      - intros d s2 r2 s3 Hg Hw2; eapply IH; eauto.
      - intros; apply wf_make_shared; auto. }
    destruct r1 as [p|[e| |]]; intros H; injection H as _ <-; auto.
    + apply invoke_ok in Ei as (f & args & s2 & Hc & Hr & -> & ->).
      pose proof (resolve_extends _ _ _ _ _ Hr) as (Hc2 & _).
      unfold set_flag, set_obj in Hc2 |- *; cbn [st_ctor] in Hc2.
      intros u Hu; cbn [st_flag st_obj st_ctor st_heap] in Hu |- *.
      destruct (cty_eq_dec u t) as [->|Hne].
      * rewrite !upd_eq; exists f, (length (st_heap s2)), {| o_class := f_impl f; o_args := args |}.
        cbn [snd make_shared st_ctor st_heap].
        repeat split; auto.
        -- rewrite Hc2; exact Hc.
        -- rewrite nth_error_app2, Nat.sub_diag by lia; reflexivity.
      * rewrite (upd_neq _ _ _ _ Hne) in Hu.
        destruct (Hw1 u Hu) as (f' & a' & o' & H1 & H2 & H3 & H4).
        exists f', a', o'; rewrite !(upd_neq _ _ _ _ Hne); auto.
    + intros u Hu; unfold set_flag in Hu |- *; cbn [st_flag st_obj st_ctor st_heap] in Hu |- *.
      destruct (cty_eq_dec u t) as [->|Hne];
        [rewrite upd_eq in Hu; discriminate|rewrite (upd_neq _ _ _ _ Hne) in Hu; exact (Hw1 u Hu)].
Qed.

Lemma resolve_wf n ds s r s' : wf s -> resolve (registry_get n) ds s = (r, s') -> wf s'.
Proof.
  intros Hw H; revert Hw.
  refine (resolve_pres (fun a b => wf a -> wf b) (fun _ H => H)
            (fun a b c H1 H2 H => H2 (H1 H)) (registry_get n) _ _ _ _ _ H).
  intros; eapply registry_get_wf; eauto.
Qed.

(** A call that returns leaves the binding realized, with the returned
    handle cached. *)
Lemma registry_get_ok_done fuel t s p s' :
  registry_get fuel t s = (Ok p, s') -> st_flag s' t = Done /\ st_obj s' t = p.
Proof.
  destruct fuel as [|n]; simpl; [discriminate|].
  destruct (st_flag s t) eqn:Ef.
  - destruct (invoke (registry_get n) (st_ctor s t) (set_flag t Running s)) as [[q|[e| |]] s1];
      intros H; try discriminate.
    inversion H; subst; clear H.
    unfold set_flag, set_obj; cbn [st_flag st_obj]; rewrite !upd_eq; auto.
  - discriminate.
  - intros H; inversion H; subst; auto.
Qed.

Lemma registry_get_ok_class fuel t s p s' :
  wf s -> registry_get fuel t s = (Ok p, s') ->
  exists f a o, st_ctor s t = Some f /\ p = Some a /\
    nth_error (st_heap s') a = Some o /\ o_class o = f_impl f.
Proof.
  intros Hw H; pose proof (registry_get_wf _ _ _ _ _ Hw H) as Hw'.
  destruct (registry_get_ok_done _ _ _ _ _ H) as [Hd Ho].
  destruct (Hw' t Hd) as (f & a & o & H1 & H2 & H3 & H4).
  destruct (registry_get_extends _ _ _ _ _ H) as (Hc & _).
  exists f, a, o; repeat split; congruence.
Qed.


Lemma exec_done_kept classes fuel prog s r s' :
  exec classes fuel prog s = (r, s') -> done_kept s s'.
Proof.
  assert (Hst : forall st s r s', exec_stmt classes fuel st s = (r, s') -> done_kept s s').
  { intros st s0 r0 s1; destruct st; simpl.
    1,2: intros H; injection H as _ <-; unfold di_add;
         destruct (st_ctor s0 _); intros u Hu; simpl; auto.
    unfold di_get; intros H; apply registry_get_extends in H as (_ & _ & H); exact H. }
  revert s r s'; induction prog as [|st rest IH]; intros s r s'; simpl.
  - intros H; injection H as _ <-; intros u Hu; auto.
  - destruct (exec_stmt classes fuel st s) as [[p|e] s1] eqn:E1.
    + destruct (exec classes fuel rest s1) as [[ps|e] s2] eqn:E2; intros H; injection H as _ <-;
        intros u Hu; destruct (Hst _ _ _ _ E1 u Hu) as [A B]; destruct (IH _ _ _ E2 u A);
        split; congruence.
    + intros H; injection H as _ <-; eapply Hst; eauto.
Qed.

Lemma exec_ctor_kept classes fuel prog s r s' I f :
  st_ctor s I = Some f -> exec classes fuel prog s = (r, s') -> st_ctor s' I = Some f.
Proof.
  assert (Hst : forall st s r s', st_ctor s I = Some f ->
                exec_stmt classes fuel st s = (r, s') -> st_ctor s' I = Some f).
  { intros st s0 r0 s1 Hc; destruct st; simpl.
    1,2: intros H; injection H as _ <-; unfold di_add;
         match goal with |- context [match st_ctor ?s2 ?k with _ => _ end] =>
           destruct (st_ctor s2 k) eqn:E; auto; simpl;
           unfold upd; destruct (cty_eq_dec I k); subst; congruence end.
    unfold di_get; intros H; apply registry_get_extends in H as (H & _); congruence. }
  revert s r s'; induction prog as [|st rest IH]; intros s r s' Hc; simpl.
  - intros H; injection H as _ <-; auto.
  - destruct (exec_stmt classes fuel st s) as [[p|e] s1] eqn:E1.
    + destruct (exec classes fuel rest s1) as [[ps|e] s2] eqn:E2; intros H; injection H as _ <-;
        (eapply (IH s1); [eapply Hst; eauto|exact E2]).
    + intros H; injection H as _ <-; eapply Hst; eauto.
Qed.

Lemma exec_wf classes fuel prog s r s' : wf s -> exec classes fuel prog s = (r, s') -> wf s'.
Proof.
  assert (Hst : forall st s r s', wf s -> exec_stmt classes fuel st s = (r, s') -> wf s').
  { intros st s0 r0 s1 Hw; destruct st; simpl.
    1,2: intros H; injection H as _ <-; unfold di_add;
         match goal with |- context [match st_ctor ?s2 ?k with _ => _ end] =>
           destruct (st_ctor s2 k) eqn:E end; auto;
         intros u Hu; destruct (Hw u Hu) as (f & a & o & H1 & H2 & H3 & H4);
         exists f, a, o; simpl; unfold upd; destruct (cty_eq_dec u _); subst; [congruence|auto].
    unfold di_get; intros H; eapply registry_get_wf; eauto. }
  revert s r s'; induction prog as [|st rest IH]; intros s r s' Hw; simpl.
  - intros H; injection H as _ <-; auto.
  - destruct (exec_stmt classes fuel st s) as [[p|e] s1] eqn:E1.
    + destruct (exec classes fuel rest s1) as [[ps|e] s2] eqn:E2; intros H; injection H as _ <-;
        (eapply (IH s1); [eapply Hst; eauto|exact E2]).
    + intros H; injection H as _ <-; eapply Hst; eauto.
Qed.

Lemma registry_get_throw_unset fuel t s e s' :
  registry_get fuel t s = (Fail (Throw e), s') ->
  st_flag s t = Unset /\ st_flag s' t = Unset.
Proof.
  destruct fuel as [|n]; simpl; [discriminate|].
  destruct (st_flag s t) eqn:Ef; try discriminate.
  destruct (invoke (registry_get n) (st_ctor s t) (set_flag t Running s)) as [[q|[e'| |]] s1];
    intros H; try discriminate.
  inversion H; subst; split; auto; unfold set_flag; cbn [st_flag]; apply upd_eq.
Qed.

Lemma wf_set_running t s : wf s -> wf (set_flag t Running s).
Proof.
  intros Hw u Hu; unfold set_flag in Hu |- *; cbn [st_flag st_obj st_ctor st_heap] in Hu |- *.
  destruct (cty_eq_dec u t) as [->|Hne];
    [rewrite upd_eq in Hu; discriminate|rewrite (upd_neq _ _ _ _ Hne) in Hu; exact (Hw u Hu)].
Qed.

(** A call that realizes [t]: its factory's object is the last one made,
    after the objects of the dependencies, and every other binding realized
    by then points to an earlier object. *)
Lemma registry_get_fresh fuel t s p s' :
  wf s -> st_flag s t = Unset -> registry_get fuel t s = (Ok p, s') ->
  exists f h o, st_ctor s t = Some f /\ st_heap s' = st_heap s ++ h ++ [o] /\
    p = Some (length (st_heap s ++ h)) /\ o_class o = f_impl f /\
    (forall u a, u <> t -> st_flag s' u = Done -> st_obj s' u = Some a ->
                 a < length (st_heap s ++ h)).
Proof.
  intros Hw Hf H.
  destruct (registry_get_unset_ok _ _ _ _ _ Hf H) as (n & f & args & s1 & -> & Hc & Hr & Hp & ->).
  pose proof (resolve_extends _ _ _ _ _ Hr) as (_ & (h & Hh) & _).
  pose proof (resolve_wf _ _ _ _ _ (wf_set_running t s Hw) Hr) as Hw1.
  unfold set_flag in Hh; cbn [st_heap] in Hh.
  exists f, h, {| o_class := f_impl f; o_args := args |}.
  split; [exact Hc|].
  split; [unfold set_flag, set_obj; cbn; rewrite Hh, app_assoc; reflexivity|].
  split; [rewrite Hp, Hh; reflexivity|].
  split; [reflexivity|].
  intros u a Hne Hu Ha; unfold set_flag, set_obj in Hu, Ha; cbn in Hu, Ha.
  rewrite (upd_neq _ _ _ _ Hne) in Hu; rewrite (upd_neq _ _ _ _ Hne) in Ha.
  destruct (Hw1 u Hu) as (f' & a' & o' & _ & Ha' & Hn & _).
  rewrite Ha in Ha'; injection Ha' as <-.
  rewrite <- Hh; apply nth_error_Some; congruence.
Qed.

Lemma registry_get_ok_not_running fuel t s p s' :
  registry_get fuel t s = (Ok p, s') -> st_flag s t <> Running.
Proof.
  destruct fuel as [|n]; simpl; [discriminate|].
  destruct (st_flag s t); [intros _; discriminate|discriminate|intros _; discriminate].
Qed.

Lemma registry_get_done_ok fuel t s p s' :
  st_flag s t = Done -> registry_get fuel t s = (Ok p, s') -> p = st_obj s t /\ s' = s.
Proof.
  intros Hd; destruct fuel as [|n]; simpl; [discriminate|]; rewrite Hd.
  intros H; inversion H; subst; auto.
Qed.

Lemma wf_di_add classes I T s : wf s -> wf (di_add classes I T s).
Proof.
  intros Hw u Hu; unfold di_add in Hu |- *.
  destruct (st_ctor s I) eqn:E; [exact (Hw u Hu)|].
  unfold set_ctor in Hu |- *; cbn in Hu |- *.
  destruct (Hw u Hu) as (f & a & o & H1 & H2 & H3 & H4).
  destruct (cty_eq_dec u I) as [->|Hne]; [congruence|].
  exists f, a, o; rewrite (upd_neq _ _ _ _ Hne); auto.
Qed.

Lemma exec_adds_heap classes fuel prog s r s' :
  Forall (fun st => exists i u, st = Build.SAdd i u \/ st = Build.SAdd1 u) prog ->
  exec classes fuel prog s = (r, s') -> st_heap s' = st_heap s.
Proof.
  intros Hall; revert s r s'; induction Hall as [|st rest Hst _ IH]; intros s r s'; simpl.
  - intros H; injection H as _ <-; reflexivity.
  - destruct Hst as (i & u & [->| ->]); simpl;
      destruct (exec classes fuel rest _) as [[ps|e] s2] eqn:E2; intros H; injection H as _ <-;
      rewrite (IH _ _ _ E2); unfold di_add; destruct (st_ctor s _); reflexivity.
Qed.

Lemma resolve_no_throw (g : cty -> state -> outcome ptr * state) (C : cty -> option factory) :
  (forall d s r s', g d s = (r, s') -> st_ctor s' = st_ctor s) ->
  forall ds, (forall d s e s', In d ds -> st_ctor s = C -> g d s = (Fail (Throw e), s') -> False) ->
  forall s e s', st_ctor s = C -> resolve g ds s = (Fail (Throw e), s') -> False.
Proof.
  intros Hc ds; induction ds as [|d ds IH]; intros Hd s e s' Hs; simpl; [discriminate|].
  destruct (g d s) as [[p|e'] s1] eqn:E1.
  - destruct (resolve g ds s1) as [[ps|e'] s2] eqn:E2; [discriminate|].
    intros H; injection H as -> ->.
    refine (IH _ s1 _ _ _ E2).
    + intros d' s3 e3 s3' Hin; apply Hd; right; exact Hin.
    + rewrite (Hc _ _ _ _ E1); exact Hs.
  - intros H; injection H as He _; subst e'; exact (Hd d s e s1 (or_introl eq_refl) Hs E1).
Qed.

Lemma dep_reach_trans C t d u : dep_reach C t d -> dep_reach C d u -> dep_reach C t u.
Proof.
  intros Hd Hu; induction Hu as [|u f e _ IH Hf He]; [exact Hd|].
  exact (dep_step C t u f e IH Hf He).
Qed.

Lemma dep_reach_dep C t f d : C t = Some f -> In d (f_deps f) -> dep_reach C t d.
Proof. intros Hf Hd; exact (dep_step C t t f d dep_refl Hf Hd). Qed.

(** Along dependencies reachable from [t] a rank decreasing on each edge
    only decreases. *)
Lemma dep_reach_rank (rk : cty -> nat) C t :
  (forall u f d, dep_reach C t u -> C u = Some f -> In d (f_deps f) -> rk d < rk u) ->
  forall x u, dep_reach C t x -> dep_reach C x u -> rk u <= rk x.
Proof.
  intros Hrk x u Hx Hu; induction Hu as [|u f d Hu IH Hf Hd]; [lia|].
  pose proof (Hrk u f d (dep_reach_trans _ _ _ _ Hx Hu) Hf Hd); lia.
Qed.

(** With [t] and every type it depends on added, [registry<T>::get()]
    never throws. *)
Lemma registry_get_no_throw fuel : forall t s e s',
  (forall u, dep_reach (st_ctor s) t u -> st_ctor s u <> None) ->
  registry_get fuel t s = (Fail (Throw e), s') -> False.
Proof.
  induction fuel as [|n IH]; intros t s e s' Hcl; simpl; [discriminate|].
  destruct (st_flag s t); [|discriminate|discriminate].
  destruct (invoke (registry_get n) (st_ctor s t) (set_flag t Running s)) as [[q|[e'| |]] s1] eqn:Ei;
    try discriminate.
  intros _.
  apply invoke_fail in Ei as [(Hc & _ & _)|(f & Hc & Hr)]; cbn [st_ctor set_flag] in Hc;
    [exact (Hcl t dep_refl Hc)|].
  refine (resolve_no_throw (registry_get n) (st_ctor s) _ (f_deps f) _ (set_flag t Running s) _ _ eq_refl Hr).
  - intros d s2 r s3 H; exact (proj1 (registry_get_extends _ _ _ _ _ H)).
  - intros d s2 e2 s3 Hin Hs2 H.
    refine (IH d s2 e2 s3 _ H).
    rewrite Hs2; intros u Hu.
    exact (Hcl u (dep_reach_trans _ _ _ _ (dep_reach_dep _ _ _ _ Hc Hin) Hu)).
Qed.

Lemma resolve_all_ok (g : cty -> state -> outcome ptr * state) (P : cty -> Prop)
    (Q : state -> Prop) (Rn : state -> state -> Prop) :
  (forall s, Rn s s) -> (forall a b c, Rn a b -> Rn b c -> Rn a c) ->
  (forall d s, P d -> Q s -> exists p s', g d s = (Ok p, s') /\ Q s' /\ Rn s s') ->
  forall ds s, Forall P ds -> Q s -> exists ps s', resolve g ds s = (Ok ps, s') /\ Q s' /\ Rn s s'.
Proof.
  intros Hrefl Htrans Hg ds; induction ds as [|d ds IH]; intros s Hall Hq; simpl.
  - exists [], s; auto.
  - inversion Hall as [|? ? Hd Hrest]; subst.
    destruct (Hg d s Hd Hq) as (p & s1 & E1 & Hq1 & Hr1).
    destruct (IH s1 Hrest Hq1) as (ps & s2 & E2 & Hq2 & Hr2).
    rewrite E1, E2; exists (p :: ps), s2; split; [reflexivity|split; [exact Hq2|eauto]].
Qed.

(** With [t] and every type it depends on added, the dependencies
    acyclic (a rank decreasing along them) and none of them with a call in
    progress, [registry<T>::get()] returns a non-null handle. *)
Lemma registry_get_ranked (rk : cty -> nat) fuel : forall t s,
  wf s ->
  (forall u, dep_reach (st_ctor s) t u -> st_ctor s u <> None) ->
  (forall u f d, dep_reach (st_ctor s) t u -> st_ctor s u = Some f -> In d (f_deps f) -> rk d < rk u) ->
  (forall u, dep_reach (st_ctor s) t u -> st_flag s u <> Running) ->
  rk t < fuel ->
  exists a s', registry_get fuel t s = (Ok (Some a), s') /\
    (forall u, st_flag s' u = Running -> st_flag s u = Running).
Proof.
  induction fuel as [|n IH]; intros t s Hw Hcl Hrk Hrun Hlt; [lia|].
  set (C := st_ctor s) in *.
  destruct (st_flag s t) eqn:Ef.
  - destruct (C t) as [f|] eqn:Hc; [|exfalso; exact (Hcl t dep_refl Hc)].
    destruct (resolve_all_ok (registry_get n) (fun d => dep_reach C t d /\ rk d < rk t)
                (fun s2 => st_ctor s2 = C /\ wf s2 /\
                   (forall u, dep_reach C t u -> u <> t -> st_flag s2 u <> Running))
                (fun a b => forall u, st_flag b u = Running -> st_flag a u = Running)
                (fun _ _ H => H) (fun a b c H1 H2 u H => H1 u (H2 u H)))
      with (ds := f_deps f) (s := set_flag t Running s)
      as (ps & s1 & Hr & (Hc1 & Hw1 & Hrun1) & Hmono).
    + intros d s2 [Hd Hdr] (Hc2 & Hw2 & Hrun2).
      assert (Hsub : forall u, dep_reach C d u -> dep_reach C t u /\ u <> t).
      { intros u Hu; split; [exact (dep_reach_trans _ _ _ _ Hd Hu)|].
        pose proof (dep_reach_rank rk C t Hrk d u Hd Hu); intros ->; lia. }
      destruct (IH d s2 Hw2) as (a & s3 & E & Hm).
      * rewrite Hc2; intros u Hu; exact (Hcl u (proj1 (Hsub u Hu))).
      * rewrite Hc2; intros u f' d' Hu; exact (Hrk u f' d' (proj1 (Hsub u Hu))).
      * rewrite Hc2; intros u Hu; destruct (Hsub u Hu) as [Hu1 Hu2]; exact (Hrun2 u Hu1 Hu2).
      * lia.
      * exists (Some a), s3; split; [exact E|split; [split; [|split]|exact Hm]].
        -- rewrite (proj1 (registry_get_extends _ _ _ _ _ E)); exact Hc2.
        -- exact (registry_get_wf _ _ _ _ _ Hw2 E).
        -- intros u Hu Hne Hr; exact (Hrun2 u Hu Hne (Hm u Hr)).
    + apply Forall_forall; intros d Hd; split; [exact (dep_reach_dep _ _ _ _ Hc Hd)|].
      exact (Hrk t f d dep_refl Hc Hd).
    + split; [reflexivity|split; [exact (wf_set_running t s Hw)|]].
      intros u Hu Hne; unfold set_flag; cbn [st_flag].
      rewrite upd_neq by exact Hne; apply Hrun; exact Hu.
    + assert (Ei : invoke (registry_get n) (st_ctor s t) (set_flag t Running s) =
                   (Ok (Some (length (st_heap s1))), snd (make_shared (f_impl f) ps s1))).
      { unfold invoke; fold C; rewrite Hc, Hr; reflexivity. }
      exists (length (st_heap s1)),
        (set_flag t Done (set_obj t (Some (length (st_heap s1))) (snd (make_shared (f_impl f) ps s1)))).
      split.
      * simpl; rewrite Ef, Ei; unfold set_obj; cbn [st_obj]; rewrite upd_eq; reflexivity.
      * intros u Hu; unfold set_flag, set_obj in Hu; cbn [st_flag snd make_shared] in Hu.
        destruct (cty_eq_dec u t) as [->|Hne]; [rewrite upd_eq in Hu; discriminate|].
        rewrite (upd_neq _ _ _ _ Hne) in Hu.
        specialize (Hmono u Hu); unfold set_flag in Hmono; cbn [st_flag] in Hmono.
        rewrite (upd_neq _ _ _ _ Hne) in Hmono; exact Hmono.
  - exfalso; exact (Hrun t dep_refl Ef).
  - destruct (Hw t Ef) as (f & a & o & _ & Ha & _).
    exists a, s; split; [simpl; rewrite Ef, Ha; reflexivity|auto].
Qed.

End RuntimeFacts.

Section ExtraFacts.
Import Runtime.

Lemma registry_get_running_kept fuel : forall w s r s',
  registry_get fuel w s = (r, s') -> forall u, st_flag s u = Running -> st_flag s' u = Running.
Proof.
  induction fuel as [|n IH]; intros w s r s' H u Hu; simpl in H; [injection H as _ <-; exact Hu|].
  destruct (st_flag s w) eqn:Ef; [|injection H as _ <-; exact Hu ..].
  assert (Hne : u <> w) by congruence.
  destruct (invoke (registry_get n) (st_ctor s w) (set_flag w Running s)) as [r1 s1] eqn:Ei.
  assert (H1 : st_flag s1 u = Running).
  { refine (invoke_pres (fun a b => forall u, st_flag a u = Running -> st_flag b u = Running)
              (fun _ _ H => H) (fun a b c H1 H2 u H => H2 u (H1 u H)) (registry_get n) _ _ _ _ _ _ Ei u _).
    - intros d s2 r2 s3 Hg; exact (IH _ _ _ _ Hg).
    - intros T args s2 v Hv; exact Hv.
    - unfold set_flag; cbn [st_flag]; rewrite upd_neq by exact Hne; exact Hu. }
  destruct r1 as [p|[e| |]]; injection H as _ <-; unfold set_flag, set_obj; cbn [st_flag];
    rewrite ?upd_neq by exact Hne; exact H1.
Qed.

Lemma resolve_running_kept n ds s r s' :
  resolve (registry_get n) ds s = (r, s') -> forall u, st_flag s u = Running -> st_flag s' u = Running.
Proof.
  apply (resolve_pres (fun a b => forall u, st_flag a u = Running -> st_flag b u = Running)
           (fun _ _ H => H) (fun a b c H1 H2 u H => H2 u (H1 u H))).
  intros d s2 r2 s3 Hg; exact (registry_get_running_kept _ _ _ _ _ Hg).
Qed.

Section CompletesPreorder.
Variable R : state -> state -> Prop.
Hypothesis R_refl : forall s, R s s.
Hypothesis R_trans : forall a b c, R a b -> R b c -> R a c.

Lemma resolve_pres_completes (g : cty -> state -> outcome ptr * state) :
  (forall d s r s', g d s = (r, s') -> completes r = true -> R s s') ->
  forall ds s r s', resolve g ds s = (r, s') -> completes r = true -> R s s'.
Proof.
  intros Hg ds; induction ds as [|d ds IH]; intros s r s'; simpl.
  - intros H _; injection H as _ <-; apply R_refl.
  - destruct (g d s) as [[p|e] s1] eqn:E1.
    + destruct (resolve g ds s1) as [[ps|e] s2] eqn:E2; intros H Hc; injection H as <- <-.
      * apply (R_trans s s1 s2); [exact (Hg _ _ _ _ E1 eq_refl)|exact (IH _ _ _ E2 eq_refl)].
      * apply (R_trans s s1 s2); [exact (Hg _ _ _ _ E1 eq_refl)|exact (IH _ _ _ E2 Hc)].
    + intros H Hc; injection H as <- <-; exact (Hg _ _ _ _ E1 Hc).
Qed.
End CompletesPreorder.

Lemma registry_get_running_back fuel : forall w s r s',
  registry_get fuel w s = (r, s') -> completes r = true ->
  forall u, st_flag s' u = Running -> st_flag s u = Running.
Proof.
  induction fuel as [|n IH]; intros w s r s' H Hc u Hu; simpl in H; [injection H as <- <-; discriminate|].
  destruct (st_flag s w) eqn:Ef; [|injection H as _ <-; exact Hu ..].
  destruct (invoke (registry_get n) (st_ctor s w) (set_flag w Running s)) as [r1 s1] eqn:Ei.
  assert (Hback : completes r1 = true -> forall v, st_flag s1 v = Running ->
                  st_flag (set_flag w Running s) v = Running).
  { clear Hu H; clear u; intros Hc1; destruct r1 as [p|e].
    - apply invoke_ok in Ei as (f & args & s2 & _ & Hr & _ & ->).
      intros u Hu1; cbn [snd make_shared st_flag] in Hu1.
      refine (resolve_pres_completes (fun a b => forall u, st_flag b u = Running -> st_flag a u = Running)
                (fun _ _ H => H) (fun a b c H1 H2 u H => H1 u (H2 u H)) (registry_get n) _ _ _ _ _ Hr eq_refl u Hu1).
      intros d s3 r3 s4 Hg Hc3; exact (IH _ _ _ _ Hg Hc3).
    - apply invoke_fail in Ei as [(_ & _ & ->)|(f & _ & Hr)]; [auto|].
      refine (resolve_pres_completes (fun a b => forall u, st_flag b u = Running -> st_flag a u = Running)
                (fun _ _ H => H) (fun a b c H1 H2 u H => H1 u (H2 u H)) (registry_get n) _ _ _ _ _ Hr Hc1).
      intros d s3 r3 s4 Hg Hc3; exact (IH _ _ _ _ Hg Hc3). }
  destruct r1 as [p|[e| |]]; injection H as <- <-; try discriminate;
    unfold set_flag, set_obj in Hu; cbn [st_flag] in Hu;
    (destruct (cty_eq_dec u w) as [->|Hne]; [rewrite upd_eq in Hu; discriminate|]);
    rewrite upd_neq in Hu by exact Hne;
    specialize (Hback eq_refl u Hu); unfold set_flag in Hback; cbn [st_flag] in Hback;
    rewrite upd_neq in Hback by exact Hne; exact Hback.
Qed.

(** The handles a resolved argument list holds are the cached handles of
    the dependencies, all of them realized. *)
Lemma resolve_ok_cached n ds s ps s' :
  resolve (registry_get n) ds s = (Ok ps, s') ->
  ps = map (st_obj s') ds /\ Forall (fun d => st_flag s' d = Done) ds.
Proof.
  revert s ps s'; induction ds as [|d ds IH]; intros s ps s'; simpl.
  - intros H; injection H as <- <-; auto.
  - destruct (registry_get n d s) as [[p|e] s1] eqn:E1; [|discriminate].
    destruct (resolve (registry_get n) ds s1) as [[ps'|e] s2] eqn:E2; [|discriminate].
    intros H; injection H as <- <-.
    destruct (IH _ _ _ E2) as [-> Hall].
    destruct (registry_get_ok_done _ _ _ _ _ E1) as [Hd Ho].
    destruct (proj2 (proj2 (resolve_extends _ _ _ _ _ E2)) d Hd) as [Hd2 Ho2].
    split; [rewrite Ho2, Ho; reflexivity|constructor; auto].
Qed.

End ExtraFacts.


Section ExtraFacts2.
Import Runtime.

Lemma cached_trans a b c :
  extends a b -> new_objects_cached a b -> extends b c -> new_objects_cached b c ->
  new_objects_cached a c.
Proof.
  intros Eab Hab Ebc Hbc x Hx.
  destruct (Nat.lt_ge_cases x (length (st_heap b))) as [Hl|Hl].
  - destruct (Hab x ltac:(lia)) as (u & H1 & H2 & H3).
    destruct (proj2 (proj2 Ebc) u H2) as [H4 H5]; exists u; split; [|split]; congruence.
  - destruct (Hbc x ltac:(lia)) as (u & H1 & H2 & H3).
    exists u; split; [|auto]; intros Ha; apply H1; exact (proj1 (proj2 (proj2 Eab) u Ha)).
Qed.

Lemma cached_refl s : new_objects_cached s s.
Proof. intros x Hx; lia. Qed.

(** Leaving a call: only [t]'s flag and handle may differ from [s1]. *)
Lemma cached_exit s s1 sF t :
  new_objects_cached (set_flag t Running s) s1 -> st_flag s1 t = Running ->
  st_heap sF = st_heap s1 ->
  (forall u, u <> t -> st_flag sF u = st_flag s1 u /\ st_obj sF u = st_obj s1 u) ->
  new_objects_cached s sF.
Proof.
  intros H Ht Hh Hu x Hx; rewrite Hh in Hx.
  destruct (H x Hx) as (u & H1 & H2 & H3).
  assert (Hne : u <> t) by congruence.
  unfold set_flag in H1; cbn [st_flag] in H1; rewrite upd_neq in H1 by exact Hne.
  destruct (Hu u Hne) as [E1 E2]; exists u; split; [exact H1|split; congruence].
Qed.

Lemma registry_get_new_cached fuel : forall t s r s',
  registry_get fuel t s = (r, s') -> new_objects_cached s s'.
Proof.
  induction fuel as [|n IH]; intros t s r s' H; simpl in H.
  - injection H as _ <-; apply cached_refl.
  - destruct (st_flag s t) eqn:Ef; [|injection H as _ <-; apply cached_refl ..].
    assert (Hres : forall ds s0 r0 s1, resolve (registry_get n) ds s0 = (r0, s1) ->
                   extends s0 s1 /\ new_objects_cached s0 s1).
    { apply (resolve_pres (fun a b => extends a b /\ new_objects_cached a b)).
      - intros a; split; [apply extends_refl|apply cached_refl].
      - intros a b c [E1 H1] [E2 H2]; split; [eapply extends_trans; eauto|eapply cached_trans; eauto].
      - intros d s2 r2 s3 Hg; split; [exact (registry_get_extends _ _ _ _ _ Hg)|exact (IH _ _ _ _ Hg)]. }
    assert (Hrun : forall ds r0 s1, resolve (registry_get n) ds (set_flag t Running s) = (r0, s1) ->
                   st_flag s1 t = Running).
    { intros ds r0 s1 Hr; apply (resolve_running_kept _ _ _ _ _ Hr); unfold set_flag; cbn [st_flag].
      apply upd_eq. }
    destruct (invoke (registry_get n) (st_ctor s t) (set_flag t Running s)) as [[p|e] s1] eqn:Ei.
    + apply invoke_ok in Ei as (f & args & s2 & _ & Hr & -> & ->).
      destruct (Hres _ _ _ _ Hr) as [_ H2]; pose proof (Hrun _ _ _ Hr) as Ht.
      injection H as _ <-.
      intros x Hx; unfold set_flag, set_obj in Hx |- *; cbn [st_heap st_flag st_obj snd make_shared] in Hx |- *.
      rewrite length_app in Hx; cbn [length] in Hx.
      destruct (Nat.eq_dec x (length (st_heap s2))) as [->|Hx2].
      * exists t; rewrite !upd_eq; split; [rewrite Ef; discriminate|split; reflexivity].
      * destruct (H2 x ltac:(unfold set_flag; cbn [st_heap]; lia)) as (u & H3 & H4 & H5).
        assert (Hne : u <> t) by congruence.
        unfold set_flag in H3; cbn [st_flag] in H3.
        exists u; rewrite !(upd_neq _ _ _ _ Hne) in *; auto.
    + apply invoke_fail in Ei as [(_ & _ & ->)|(f & _ & Hr)].
      * destruct e as [e| |]; injection H as _ <-; intros x Hx; unfold set_flag in Hx; cbn [st_heap] in Hx; lia.
      * destruct (Hres _ _ _ _ Hr) as [_ H2]; pose proof (Hrun _ _ _ Hr) as Ht.
        destruct e as [e| |]; injection H as _ <-;
          (apply (cached_exit s s1 _ t H2 Ht); [reflexivity|]);
          intros u Hu; unfold set_flag; cbn [st_flag st_obj]; rewrite ?upd_neq by exact Hu; auto.
Qed.

Lemma registry_get_distinct fuel : forall t s r s',
  wf s -> handles_distinct s -> registry_get fuel t s = (r, s') -> handles_distinct s'.
Proof.
  induction fuel as [|n IH]; intros t s r s' Hw Hd H; simpl in H.
  - injection H as _ <-; exact Hd.
  - destruct (st_flag s t) eqn:Ef; [|injection H as _ <-; exact Hd ..].
    assert (Hd0 : handles_distinct (set_flag t Running s)).
    { intros u v a Hu Hv; unfold set_flag in Hu, Hv |- *; cbn [st_flag st_obj] in Hu, Hv |- *.
      destruct (cty_eq_dec u t) as [->|Hnu]; [rewrite upd_eq in Hu; discriminate|].
      destruct (cty_eq_dec v t) as [->|Hnv]; [rewrite upd_eq in Hv; discriminate|].
      rewrite upd_neq in Hu by assumption; rewrite upd_neq in Hv by assumption; exact (Hd u v a Hu Hv). }
    assert (Hres : forall ds s0 r0 s1, resolve (registry_get n) ds s0 = (r0, s1) ->
                   wf s0 /\ handles_distinct s0 -> wf s1 /\ handles_distinct s1).
    { apply (resolve_pres (fun a b => wf a /\ handles_distinct a -> wf b /\ handles_distinct b)
               (fun _ H => H) (fun a b c H1 H2 H => H2 (H1 H))).
      intros d s2 r2 s3 Hg [Hw2 Hd2]; split;
        [exact (registry_get_wf _ _ _ _ _ Hw2 Hg)|exact (IH _ _ _ _ Hw2 Hd2 Hg)]. }
    pose proof (wf_set_running t s Hw) as Hw0.
    assert (Hsub : forall s1 sF, handles_distinct s1 ->
              (forall u, st_flag sF u = Done -> u <> t /\ st_flag s1 u = Done /\ st_obj sF u = st_obj s1 u) ->
              handles_distinct sF).
    { intros s1 sF Hd1 Hf u v a Hu Hv Hau Hav.
      destruct (Hf u Hu) as (_ & Hu1 & Eu); destruct (Hf v Hv) as (_ & Hv1 & Ev).
      apply (Hd1 u v a Hu1 Hv1); congruence. }
    destruct (invoke (registry_get n) (st_ctor s t) (set_flag t Running s)) as [[p|e] s1] eqn:Ei.
    + apply invoke_ok in Ei as (f & args & s2 & _ & Hr & -> & ->).
      destruct (Hres _ _ _ _ Hr (conj Hw0 Hd0)) as [Hw2 Hd2].
      injection H as _ <-.
      intros u v a Hu Hv; unfold set_flag, set_obj in Hu, Hv |- *;
        cbn [st_flag st_obj snd make_shared] in Hu, Hv |- *.
      assert (Hold : forall w, w <> t -> upd (st_flag s2) t Done w = Done ->
                     upd (st_obj s2) t (Some (length (st_heap s2))) w <> Some (length (st_heap s2))).
      { intros w Hw' Hwd Hwo; rewrite upd_neq in Hwd by exact Hw'; rewrite upd_neq in Hwo by exact Hw'.
        destruct (Hw2 w Hwd) as (f' & a' & o' & _ & Ha' & Hn & _).
        rewrite Hwo in Ha'; injection Ha' as <-.
        assert (Hlt : length (st_heap s2) < length (st_heap s2)) by (apply nth_error_Some; congruence).
        lia. }
      destruct (cty_eq_dec u t) as [->|Hnu]; destruct (cty_eq_dec v t) as [->|Hnv]; intros Hau Hav.
      * reflexivity.
      * rewrite upd_eq in Hau; exfalso; apply (Hold v Hnv Hv); congruence.
      * rewrite upd_eq in Hav; exfalso; apply (Hold u Hnu Hu); congruence.
      * rewrite upd_neq in Hu by assumption; rewrite upd_neq in Hv by assumption.
        rewrite (upd_neq _ _ _ _ Hnu) in Hau; rewrite (upd_neq _ _ _ _ Hnv) in Hav.
        exact (Hd2 u v a Hu Hv Hau Hav).
    + assert (Hs1 : wf s1 /\ handles_distinct s1).
      { apply invoke_fail in Ei as [(_ & _ & ->)|(f & _ & Hr)]; [auto|exact (Hres _ _ _ _ Hr (conj Hw0 Hd0))]. }
      destruct Hs1 as [_ Hd1].
      destruct e as [e| |]; injection H as _ <-; [|exact Hd1 ..].
      apply (Hsub s1 _ Hd1); intros u Hu; unfold set_flag in Hu |- *; cbn [st_flag st_obj] in Hu |- *.
      destruct (cty_eq_dec u t) as [->|Hnu]; [rewrite upd_eq in Hu; discriminate|].
      rewrite upd_neq in Hu by exact Hnu; auto.
Qed.

Lemma di_add_runtime classes I T s :
  st_flag (di_add classes I T s) = st_flag s /\ st_obj (di_add classes I T s) = st_obj s /\
  st_heap (di_add classes I T s) = st_heap s.
Proof. unfold di_add; destruct (st_ctor s I); auto. Qed.

Lemma stmt_objects_bound classes fuel st s r s' :
  wf s -> (forall x, x < length (st_heap s) -> exists u, st_flag s u = Done /\ st_obj s u = Some x) ->
  handles_distinct s -> exec_stmt classes fuel st s = (r, s') ->
  wf s' /\ (forall x, x < length (st_heap s') -> exists u, st_flag s' u = Done /\ st_obj s' u = Some x) /\
  handles_distinct s'.
Proof.
  intros Hw Hc Hd.
  assert (Hadd : forall I T, wf (di_add classes I T s) /\
            (forall x, x < length (st_heap (di_add classes I T s)) ->
               exists u, st_flag (di_add classes I T s) u = Done /\ st_obj (di_add classes I T s) u = Some x) /\
            handles_distinct (di_add classes I T s)).
  { intros I T; destruct (di_add_runtime classes I T s) as (Ef & Eo & Eh).
    split; [apply wf_di_add, Hw|split].
    - intros x Hx; rewrite Eh in Hx; rewrite Ef, Eo; exact (Hc x Hx).
    - intros u v a; rewrite Ef, Eo; exact (Hd u v a). }
  destruct st as [i t|t|t]; simpl.
  1,2: intros H; injection H as _ <-; apply Hadd.
  unfold di_get; intros H; split; [exact (registry_get_wf _ _ _ _ _ Hw H)|split].
  - intros x Hx; destruct (Nat.lt_ge_cases x (length (st_heap s))) as [Hl|Hl].
    + destruct (Hc x Hl) as (u & Hu & Ho).
      destruct (proj2 (proj2 (registry_get_extends _ _ _ _ _ H)) u Hu) as [Hu' Ho'].
      exists u; split; congruence.
    + destruct (registry_get_new_cached _ _ _ _ _ H x (conj Hl Hx)) as (u & _ & Hu & Ho); eauto.
  - exact (registry_get_distinct _ _ _ _ _ Hw Hd H).
Qed.

Lemma exec_objects_bound classes fuel prog s r s' :
  wf s -> (forall x, x < length (st_heap s) -> exists u, st_flag s u = Done /\ st_obj s u = Some x) ->
  handles_distinct s -> exec classes fuel prog s = (r, s') ->
  wf s' /\ (forall x, x < length (st_heap s') -> exists u, st_flag s' u = Done /\ st_obj s' u = Some x) /\
  handles_distinct s'.
Proof.
  revert s r s'; induction prog as [|st rest IH]; intros s r s' Hw Hc Hd; simpl.
  - intros H; injection H as _ <-; auto.
  - destruct (exec_stmt classes fuel st s) as [[p|e] s1] eqn:E1.
    + destruct (stmt_objects_bound _ _ _ _ _ _ Hw Hc Hd E1) as (Hw1 & Hc1 & Hd1).
      destruct (exec classes fuel rest s1) as [[ps|e] s2] eqn:E2; intros H; injection H as _ <-;
        exact (IH _ _ _ Hw1 Hc1 Hd1 E2).
    + intros H; injection H as _ <-; exact (stmt_objects_bound _ _ _ _ _ _ Hw Hc Hd E1).
Qed.

Lemma registry_get_stuck (S : cty -> Prop) fuel : forall w s p s',
  stuck S s -> registry_get fuel w s = (Ok p, s') -> ~ S w /\ stuck S s'.
Proof.
  induction fuel as [|n IH]; intros w s p s' Hs H; [discriminate|].
  destruct (st_flag s w) eqn:Ef.
  - destruct (registry_get_unset_ok _ _ _ _ _ Ef H) as (n' & f & args & s1 & En & Hc & Hr & Hp & ->).
    injection En as <-.
    assert (Hres : forall ds s0 ps s2, stuck S s0 -> resolve (registry_get n) ds s0 = (Ok ps, s2) ->
                   Forall (fun d => ~ S d) ds /\ stuck S s2).
    { intros ds; induction ds as [|d ds IHd]; intros s0 ps s2 H0; simpl.
      - intros E; injection E as _ <-; auto.
      - destruct (registry_get n d s0) as [[q|e] s3] eqn:E1; [|discriminate].
        destruct (resolve (registry_get n) ds s3) as [[qs|e] s4] eqn:E2; [|discriminate].
        intros E; injection E as _ <-.
        destruct (IH _ _ _ _ H0 E1) as [Hd H3].
        destruct (IHd _ _ _ H3 E2) as [Hall H4]; auto. }
    assert (Hs0 : stuck S (set_flag w Running s)).
    { intros u Hu; destruct (Hs u Hu) as [Hf Hx]; split; [|exact Hx].
      unfold set_flag; cbn [st_flag]; destruct (cty_eq_dec u w) as [->|Hne];
        [rewrite upd_eq; discriminate|rewrite upd_neq by exact Hne; exact Hf]. }
    destruct (Hres _ _ _ _ Hs0 Hr) as [Hall Hs1].
    assert (Hw : ~ S w).
    { intros Hw; destruct (Hs w Hw) as (_ & f' & Hf' & d & Hd & HSd).
      rewrite Hc in Hf'; injection Hf' as <-.
      rewrite Forall_forall in Hall; exact (Hall d Hd HSd). }
    split; [exact Hw|].
    intros u Hu; assert (Hne : u <> w) by (intros ->; contradiction).
    destruct (Hs1 u Hu) as [Hf Hx].
    unfold set_flag, set_obj; cbn [st_flag st_ctor snd make_shared].
    rewrite upd_neq by exact Hne; split; [exact Hf|exact Hx].
  - exfalso; exact (registry_get_ok_not_running _ _ _ _ _ H Ef).
  - destruct (registry_get_done_ok _ _ _ _ _ Ef H) as [_ ->].
    split; [intros Hw; exact (proj1 (Hs w Hw) Ef)|exact Hs].
Qed.

End ExtraFacts2.





(** ** Singletons *)


(** C1 (counterexample): the first [get<Service>()] throws
    [bad_function_call] from [Logger]'s empty factory and caches nothing;
    after [add<Logger>()] the next [get<Service>()] invokes Service's factory
    again and returns a handle, so the two calls do not return the same
    cached result and the factory is evaluated twice. *)
Lemma get_reinvokes_factory_after_throw :
  let '(r1, s1) := Runtime.registry_get 5 (TClass 10) service_added in
  let '(r2, s2) :=
    Runtime.registry_get 5 (TClass 10) (Runtime.di_add wiring_classes (TClass 11) (TClass 11) s1) in
  r1 = Runtime.Fail (Runtime.Throw Runtime.Bad_function_call) /\
  Runtime.st_flag s1 (TClass 10) = Runtime.Unset /\
  r2 = Runtime.Ok (Some 1) /\ r2 <> r1 /\
  Runtime.ctor_count (TClass 10) s2 = 1.
Proof.
  vm_compute; repeat split; discriminate.
Qed.

(** C1 (amended): once a [get<T>()] call has returned normally, [T]'s
    binding is realized with that handle; whatever the program does next
    (any [add]s and [get]s), every later [get<T>()] returns the same handle
    without invoking the factory (the state is unchanged).  A call whose
    factory throws leaves the binding unrealized. *)
Theorem singleton_after_first_return (classes : cty -> Build.class_info)
    (fuel : nat) (t : cty) (s : Runtime.state) (p : Runtime.ptr) (s1 : Runtime.state) :
  Runtime.registry_get fuel t s = (Runtime.Ok p, s1) ->
  Runtime.st_flag s1 t = Runtime.Done /\ Runtime.st_obj s1 t = p /\
  (forall prog fuel' r s2 n, Runtime.exec classes fuel' prog s1 = (r, s2) ->
     Runtime.registry_get (S n) t s2 = (Runtime.Ok p, s2)) /\
  (forall fuel' s' e s'', Runtime.registry_get fuel' t s' = (Runtime.Fail (Runtime.Throw e), s'') ->
     Runtime.st_flag s'' t = Runtime.Unset).
Proof.
  intros H; destruct (registry_get_ok_done _ _ _ _ _ H) as [Hd Ho].
  split; [exact Hd|]; split; [exact Ho|]; split.
  - intros prog fuel' r s2 n Hx.
    destruct (exec_done_kept _ _ _ _ _ _ Hx t Hd) as [Hd2 Ho2].
    rewrite registry_get_done by exact Hd2; congruence.
  - intros fuel' s' e s'' Ht; apply (registry_get_throw_unset _ _ _ _ _ Ht).
Qed.

Lemma singleton_after_first_return_witness :
  Runtime.registry_get 5 (TClass 11)
    (Runtime.di_add wiring_classes (TClass 11) (TClass 11) Runtime.init) =
  (Runtime.Ok (Some 0),
   snd (Runtime.registry_get 5 (TClass 11)
          (Runtime.di_add wiring_classes (TClass 11) (TClass 11) Runtime.init))) /\
  Runtime.st_flag (snd (Runtime.registry_get 5 (TClass 11)
          (Runtime.di_add wiring_classes (TClass 11) (TClass 11) Runtime.init))) (TClass 11)
    = Runtime.Done.
Proof.
  assert (H : Runtime.registry_get 5 (TClass 11)
                (Runtime.di_add wiring_classes (TClass 11) (TClass 11) Runtime.init) =
              (Runtime.Ok (Some 0),
               snd (Runtime.registry_get 5 (TClass 11)
                      (Runtime.di_add wiring_classes (TClass 11) (TClass 11) Runtime.init))))
    by (vm_compute; reflexivity).
  split; [exact H|].
  exact (proj1 (singleton_after_first_return wiring_classes _ _ _ _ _ H)).
Defined.

(** C2: once [add<I, A>()] has stored a factory for [I], a later
    [add<I, B>()] leaves the state unchanged, and after any further
    statements every [get<I>()] that returns gives an object of class [A]. *)
Theorem first_writer_wins (classes : cty -> Build.class_info) (I A : cty) (s : Runtime.state) :
  Runtime.wf s -> Runtime.st_ctor s I = None ->
  Runtime.st_ctor (Runtime.di_add classes I A s) I = Some (Runtime.factory_of classes A) /\
  (forall B s2, Runtime.st_ctor s2 I <> None -> Runtime.di_add classes I B s2 = s2) /\
  (forall prog fuel r s2 fuel' p s3,
     Runtime.exec classes fuel prog (Runtime.di_add classes I A s) = (r, s2) ->
     Runtime.registry_get fuel' I s2 = (Runtime.Ok p, s3) ->
     exists a o, p = Some a /\ nth_error (Runtime.st_heap s3) a = Some o /\ Runtime.o_class o = A).
Proof.
  intros Hw Hn.
  assert (Hc : Runtime.st_ctor (Runtime.di_add classes I A s) I = Some (Runtime.factory_of classes A)).
  { unfold Runtime.di_add; rewrite Hn; unfold Runtime.set_ctor; cbn; apply upd_eq. }
  split; [exact Hc|split].
  - intros B s2 H; unfold Runtime.di_add; destruct (Runtime.st_ctor s2 I); congruence.
  - intros prog fuel r s2 fuel' p s3 Hx Hg.
    assert (Hw1 : Runtime.wf (Runtime.di_add classes I A s)).
    { intros u Hu; unfold Runtime.di_add in Hu |- *; rewrite Hn in Hu |- *.
      unfold Runtime.set_ctor in Hu |- *; cbn in Hu |- *.
      destruct (Hw u Hu) as (f & a & o & H1 & H2 & H3 & H4).
      destruct (cty_eq_dec u I) as [->|Hne]; [congruence|].
      exists f, a, o; rewrite (upd_neq _ _ _ _ Hne); auto. }
    pose proof (exec_wf _ _ _ _ _ _ Hw1 Hx) as Hw2.
    pose proof (exec_ctor_kept _ _ _ _ _ _ _ _ Hc Hx) as Hc2.
    destruct (registry_get_ok_class _ _ _ _ _ Hw2 Hg) as (f & a & o & Hf & Hp & Ho & Hcl).
    rewrite Hc2 in Hf; injection Hf as <-.
    exists a, o; auto.
Qed.


Lemma init_wf : Runtime.wf Runtime.init.
Proof. intros u Hu; discriminate. Qed.

Lemma first_writer_wins_witness :
  Runtime.wf Runtime.init /\ Runtime.st_ctor Runtime.init (TClass 20) = None /\
  Runtime.di_add impl_classes (TClass 20) (TClass 22)
    (Runtime.di_add impl_classes (TClass 20) (TClass 21) Runtime.init) =
  Runtime.di_add impl_classes (TClass 20) (TClass 21) Runtime.init.
Proof.
  split; [exact init_wf|split; [reflexivity|]].
  destruct (first_writer_wins impl_classes (TClass 20) (TClass 21) Runtime.init init_wf eq_refl)
    as (Hc & Hb & _).
  apply Hb; rewrite Hc; discriminate.
Defined.

(** ** Lazy construction *)

(** C3 (counterexample): after [add<Service>()] alone, a [get<Service>()]
    (made before [add<Logger>()] has run) throws and Service's constructor
    has still run zero times, not once. *)
Lemma get_constructs_nothing_when_dependency_unbound :
  let '(r, s1) := Runtime.registry_get 5 (TClass 10) service_added in
  Runtime.ctor_count (TClass 10) service_added = 0 /\
  r = Runtime.Fail (Runtime.Throw Runtime.Bad_function_call) /\
  Runtime.ctor_count (TClass 10) s1 = 0.
Proof.
  vm_compute; repeat split.
Qed.

(** C3 (amended): [add] constructs nothing (after any sequence of [add]s
    from the start no constructor has run).  A [get<T>()] call that
    realizes [T]'s binding constructs exactly one object through [T]'s
    factory: the last one it makes, of [T]'s implementation class, cached
    as [T]'s handle; every other object it makes is the cached handle of
    another binding it realizes (a dependency).  Every later [get<T>()]
    constructs nothing.  A call whose factory throws constructs nothing
    through [T]'s factory: [T]'s binding stays unrealized and every object
    the call made is the cached handle of another binding it realized. *)
Theorem construction_is_lazy (classes : cty -> Build.class_info) :
  (forall i u s, Runtime.st_heap (Runtime.di_add classes i u s) = Runtime.st_heap s) /\
  (forall adds fuel r s,
     Forall (fun st => exists i u, st = Build.SAdd i u \/ st = Build.SAdd1 u) adds ->
     Runtime.exec classes fuel adds Runtime.init = (r, s) ->
     forall T, Runtime.ctor_count T s = 0) /\
  (forall fuel t s p s',
     Runtime.wf s -> Runtime.st_flag s t = Runtime.Unset ->
     Runtime.registry_get fuel t s = (Runtime.Ok p, s') ->
     exists f h o, Runtime.st_ctor s t = Some f /\
       Runtime.st_heap s' = Runtime.st_heap s ++ h ++ [o] /\
       p = Some (length (Runtime.st_heap s ++ h)) /\ Runtime.o_class o = Runtime.f_impl f /\
       (forall x, length (Runtime.st_heap s) <= x < length (Runtime.st_heap s ++ h) ->
          exists u, u <> t /\ Runtime.st_flag s u <> Runtime.Done /\
            Runtime.st_flag s' u = Runtime.Done /\ Runtime.st_obj s' u = Some x) /\
       forall n, Runtime.registry_get (S n) t s' = (Runtime.Ok p, s')) /\
  (forall fuel t s e s',
     Runtime.registry_get fuel t s = (Runtime.Fail (Runtime.Throw e), s') ->
     Runtime.st_flag s' t = Runtime.Unset /\
     forall x, length (Runtime.st_heap s) <= x < length (Runtime.st_heap s') ->
       exists u, u <> t /\ Runtime.st_flag s u <> Runtime.Done /\
         Runtime.st_flag s' u = Runtime.Done /\ Runtime.st_obj s' u = Some x).
Proof.
  split; [intros i u s; unfold Runtime.di_add; destruct (Runtime.st_ctor s i); reflexivity|].
  split; [|split].
  - intros adds fuel r s Hall Hx T; unfold Runtime.ctor_count.
    rewrite (exec_adds_heap _ _ _ _ _ _ Hall Hx); reflexivity.
  - intros fuel t s p s' Hw Hf H.
    destruct (registry_get_fresh _ _ _ _ _ Hw Hf H) as (f & h & o & H1 & H2 & H3 & H4 & _).
    destruct (registry_get_ok_done _ _ _ _ _ H) as [Hd Ho].
    exists f, h, o; split; [exact H1|split; [exact H2|split; [exact H3|split; [exact H4|split]]]].
    + intros x Hx.
      assert (Hx' : length (Runtime.st_heap s) <= x < length (Runtime.st_heap s')).
      { rewrite H2, app_assoc, length_app; cbn [length]; lia. }
      destruct (registry_get_new_cached _ _ _ _ _ H x Hx') as (u & Hu1 & Hu2 & Hu3).
      exists u; split; [|auto].
      intros ->; rewrite Ho, H3 in Hu3; injection Hu3 as Hu3; lia.
    + intros n; rewrite registry_get_done by exact Hd; congruence.
  - intros fuel t s e s' H.
    pose proof (proj2 (registry_get_throw_unset _ _ _ _ _ H)) as Hu.
    split; [exact Hu|].
    intros x Hx; destruct (registry_get_new_cached _ _ _ _ _ H x Hx) as (u & Hu1 & Hu2 & Hu3).
    exists u; split; [|auto].
    intros ->; rewrite Hu in Hu2; discriminate.
Qed.

(** ** Bindings are keyed by the interface *)

(** C10: after [add<I1, Impl>()] and [add<I2, Impl>()] for distinct fresh
    interfaces, [get<I1>()] then [get<I2>()] (when they return) give two
    different objects, each of class [Impl]. *)
Theorem bindings_keyed_by_interface (classes : cty -> Build.class_info) (I1 I2 Impl : cty)
    (s : Runtime.state) (fuel1 fuel2 : nat) (p1 p2 : Runtime.ptr) (s1 s2 : Runtime.state) :
  Runtime.wf s -> I1 <> I2 ->
  Runtime.st_ctor s I1 = None -> Runtime.st_ctor s I2 = None ->
  Runtime.registry_get fuel1 I1
    (Runtime.di_add classes I2 Impl (Runtime.di_add classes I1 Impl s)) = (Runtime.Ok p1, s1) ->
  Runtime.registry_get fuel2 I2 s1 = (Runtime.Ok p2, s2) ->
  p1 <> p2 /\
  (exists a1 o1, p1 = Some a1 /\ nth_error (Runtime.st_heap s2) a1 = Some o1 /\
                 Runtime.o_class o1 = Impl) /\
  (exists a2 o2, p2 = Some a2 /\ nth_error (Runtime.st_heap s2) a2 = Some o2 /\
                 Runtime.o_class o2 = Impl).
Proof.
  intros Hw Hne Hn1 Hn2 G1 G2.
  set (s0 := Runtime.di_add classes I2 Impl (Runtime.di_add classes I1 Impl s)) in G1.
  assert (Hw0 : Runtime.wf s0) by (apply wf_di_add, wf_di_add, Hw).
  assert (Hc1 : Runtime.st_ctor s0 I1 = Some (Runtime.factory_of classes Impl)).
  { unfold s0, Runtime.di_add; rewrite Hn1; unfold Runtime.set_ctor; cbn [Runtime.st_ctor].
    rewrite (upd_neq _ _ _ _ (not_eq_sym Hne)), Hn2; cbn [Runtime.st_ctor].
    unfold Runtime.upd; repeat destruct (cty_eq_dec _ _); congruence. }
  assert (Hc2 : Runtime.st_ctor s0 I2 = Some (Runtime.factory_of classes Impl)).
  { unfold s0, Runtime.di_add; rewrite Hn1; unfold Runtime.set_ctor; cbn [Runtime.st_ctor].
    rewrite (upd_neq _ _ _ _ (not_eq_sym Hne)), Hn2; cbn [Runtime.st_ctor].
    unfold Runtime.upd; repeat destruct (cty_eq_dec _ _); congruence. }
  assert (Hf1 : Runtime.st_flag s0 I1 = Runtime.Unset).
  { pose proof (registry_get_ok_not_running _ _ _ _ _ G1).
    destruct (Runtime.st_flag s0 I1) eqn:E; auto; [congruence|].
    assert (Hfs : Runtime.st_flag s I1 = Runtime.Done).
    { unfold s0, Runtime.di_add in E; rewrite Hn1 in E; cbn in E.
      destruct (Runtime.upd (Runtime.st_ctor s) I1 _ I2); exact E. }
    destruct (Hw I1 Hfs) as (f & _ & _ & Hf & _); congruence. }
  destruct (registry_get_fresh _ _ _ _ _ Hw0 Hf1 G1) as (f & h & o & _ & Hh & Hp1 & _ & Hlt).
  pose proof (registry_get_wf _ _ _ _ _ Hw0 G1) as Hw1.
  pose proof (registry_get_extends _ _ _ _ _ G2) as (Hcs & (h2 & Hh2) & _).
  assert (Hcl : forall a o, nth_error (Runtime.st_heap s1) a = Some o ->
                nth_error (Runtime.st_heap s2) a = Some o).
  { intros a o' Ha; rewrite Hh2, nth_error_app1; auto; apply nth_error_Some; congruence. }
  split; [|split].
  - destruct (Runtime.st_flag s1 I2) eqn:Ef2.
    + destruct (registry_get_fresh _ _ _ _ _ Hw1 Ef2 G2) as (f' & h' & o' & _ & _ & Hp2 & _).
      rewrite Hp1, Hp2, Hh; intros Heq; injection Heq; rewrite !length_app; cbn; lia.
    + exfalso; exact (registry_get_ok_not_running _ _ _ _ _ G2 Ef2).
    + destruct (registry_get_done_ok _ _ _ _ _ Ef2 G2) as [-> _].
      destruct (Hw1 I2 Ef2) as (f' & a & o' & _ & Ha & _).
      rewrite Ha, Hp1; intros Heq; injection Heq as Heq.
      specialize (Hlt I2 a (not_eq_sym Hne) Ef2 Ha); lia.
  - destruct (registry_get_ok_class _ _ _ _ _ Hw0 G1) as (f' & a & o' & Hf' & Ha & Ho & Hcl').
    rewrite Hc1 in Hf'; injection Hf' as <-.
    exists a, o'; split; [exact Ha|split; [eapply Hcl; eauto|exact Hcl']].
  - destruct (registry_get_ok_class _ _ _ _ _ Hw1 G2) as (f' & a & o' & Hf' & Ha & Ho & Hcl').
    pose proof (registry_get_extends _ _ _ _ _ G1) as (Hcs1 & _).
    rewrite Hcs1, Hc2 in Hf'; injection Hf' as <-.
    exists a, o'; auto.
Qed.

Lemma bindings_keyed_by_interface_witness :
  exists p1 s1 p2 s2,
    Runtime.registry_get 5 (TClass 20)
      (Runtime.di_add impl_classes (TClass 30) (TClass 21)
        (Runtime.di_add impl_classes (TClass 20) (TClass 21) Runtime.init)) = (Runtime.Ok p1, s1) /\
    Runtime.registry_get 5 (TClass 30) s1 = (Runtime.Ok p2, s2) /\ p1 <> p2.
Proof.
  do 4 eexists; split; [vm_compute; reflexivity|split; [vm_compute; reflexivity|]].
  refine (proj1 (bindings_keyed_by_interface impl_classes (TClass 20) (TClass 30) (TClass 21)
                   Runtime.init 5 5 _ _ _ _ init_wf _ eq_refl eq_refl _ _));
    [discriminate|vm_compute; reflexivity|vm_compute; reflexivity].
Defined.

(** ** No run-time error path *)

(** C5 (counterexample): [logger_late] compiles ([add<Logger>()] comes
    before [get<Logger>()] in its text, so [check_type<Logger>] finds the
    ledger mark), yet its [main] runs [get<Logger>()] before
    [add<Logger>()] and throws [std::bad_function_call] from the empty
    [std::function]. *)
Lemma compiled_program_get_throws :
  Build.compiles wiring_classes (Runtime.p_text logger_late) = true /\
  fst (Runtime.exec wiring_classes 5 (Runtime.p_main logger_late) Runtime.init)
    = Runtime.Fail (Runtime.Throw Runtime.Bad_function_call).
Proof.
  vm_compute; split; reflexivity.
Qed.

(** What [get<Service>()] depends on, once Service and Logger are added. *)
Lemma wired_reach u :
  Runtime.dep_reach (Runtime.st_ctor service_and_logger_added) (TClass 10) u ->
  u = TClass 10 \/ u = TClass 11.
Proof.
  induction 1 as [|u f d _ IH Hf Hd]; [left; reflexivity|].
  destruct IH as [-> | ->]; vm_compute in Hf; injection Hf as <-; cbn in Hd.
  - destruct Hd as [<-|[]]; right; reflexivity.
  - destruct Hd.
Qed.

(** C5 (amended): a compiled program can still throw from [get<T>()] when
    it runs before [add<T>()]: the build does not see the run-time order.
    Once [add] has run for [T] and for every type [T]'s stored factory
    depends on, directly or through the stored factories of its
    dependencies, [get<T>()] never throws and every handle it returns is
    non-null; if moreover those dependencies are acyclic (a rank decreases
    along them) and none of them has a [get] in progress, it returns a
    non-null handle.  Otherwise it can only block (re-entered [call_once]
    on a dependency cycle). *)
Theorem get_never_throws_once_dependencies_added (rk : cty -> nat) (fuel : nat) (t : cty)
    (s : Runtime.state) :
  Runtime.wf s ->
  (forall u, Runtime.dep_reach (Runtime.st_ctor s) t u -> Runtime.st_ctor s u <> None) ->
  (forall e s', Runtime.registry_get fuel t s <> (Runtime.Fail (Runtime.Throw e), s')) /\
  (forall p s', Runtime.registry_get fuel t s = (Runtime.Ok p, s') -> p <> None) /\
  ((forall u f d, Runtime.dep_reach (Runtime.st_ctor s) t u -> Runtime.st_ctor s u = Some f ->
      In d (Runtime.f_deps f) -> rk d < rk u) ->
   (forall u, Runtime.dep_reach (Runtime.st_ctor s) t u -> Runtime.st_flag s u <> Runtime.Running) ->
   rk t < fuel ->
   exists a s', Runtime.registry_get fuel t s = (Runtime.Ok (Some a), s')).
Proof.
  intros Hw Hcl; split; [|split].
  - intros e s' H; exact (registry_get_no_throw _ _ _ _ _ Hcl H).
  - intros p s' H; destruct (registry_get_ok_class _ _ _ _ _ Hw H) as (f & a & o & _ & -> & _).
    discriminate.
  - intros Hrk Hrun Hlt.
    destruct (registry_get_ranked rk fuel t s Hw Hcl Hrk Hrun Hlt) as (a & s' & E & _).
    exists a, s'; exact E.
Qed.

Lemma get_never_throws_once_dependencies_added_witness :
  (forall u, Runtime.dep_reach (Runtime.st_ctor service_and_logger_added) (TClass 10) u ->
     Runtime.st_ctor service_and_logger_added u <> None) /\
  exists a s', Runtime.registry_get 5 (TClass 10) service_and_logger_added =
               (Runtime.Ok (Some a), s').
Proof.
  assert (Hcl : forall u, Runtime.dep_reach (Runtime.st_ctor service_and_logger_added) (TClass 10) u ->
                 Runtime.st_ctor service_and_logger_added u <> None).
  { intros u Hu; destruct (wired_reach u Hu) as [-> | ->]; vm_compute; discriminate. }
  split; [exact Hcl|].
  refine (proj2 (proj2 (get_never_throws_once_dependencies_added rk_w 5 (TClass 10)
            service_and_logger_added _ Hcl)) _ _ _).
  - apply wf_di_add, wf_di_add, init_wf.
  - intros u f d Hu Hf Hd; destruct (wired_reach u Hu) as [-> | ->];
      vm_compute in Hf; injection Hf as <-; cbn in Hd.
    + destruct Hd as [<-|[]]; vm_compute; lia.
    + destruct Hd.
  - intros u Hu; destruct (wired_reach u Hu) as [-> | ->]; vm_compute; discriminate.
  - vm_compute; lia.
Defined.

(** * Further properties of the code *)


(** ** Exception safety of [call_once] *)

(** A [get<T>()] that returns or throws leaves every [std::once_flag] as
    it found it with respect to calls in progress: a flag is in the middle
    of its call afterwards iff it was before.  So after a caught exception
    no binding stays half-initialised and a retry cannot block on it. *)
Theorem get_completion_restores_running_flags (fuel : nat) (t : cty) (s : Runtime.state)
    (r : Runtime.outcome Runtime.ptr) (s' : Runtime.state) :
  Runtime.registry_get fuel t s = (r, s') ->
  (exists p, r = Runtime.Ok p) \/ (exists e, r = Runtime.Fail (Runtime.Throw e)) ->
  forall u, Runtime.st_flag s' u = Runtime.Running <-> Runtime.st_flag s u = Runtime.Running.
Proof.
  intros H Hr u; split.
  - apply (registry_get_running_back _ _ _ _ _ H).
    destruct Hr as [[p ->]|[e ->]]; reflexivity.
  - apply (registry_get_running_kept _ _ _ _ _ H).
Qed.

Lemma get_completion_restores_running_flags_witness :
  exists s', Runtime.registry_get 5 (TClass 10) service_added =
             (Runtime.Fail (Runtime.Throw Runtime.Bad_function_call), s') /\
    forall u, Runtime.st_flag s' u = Runtime.Running <-> Runtime.st_flag service_added u = Runtime.Running.
Proof.
  eexists; split; [vm_compute; reflexivity|].
  apply (get_completion_restores_running_flags 5 (TClass 10) service_added
           (Runtime.Fail (Runtime.Throw Runtime.Bad_function_call))); [vm_compute; reflexivity|].
  right; exists Runtime.Bad_function_call; reflexivity.
Defined.

(** ** The constructor receives the dependencies' singletons *)

(** When [get<T>()] realizes [T]'s binding, the object it makes is of the
    implementation class of [T]'s factory and its constructor received,
    position by position in signature order, exactly the cached handles
    of the dependencies' registry entries, which are all realized: the
    same handles every later [get<E>()] returns. *)
Theorem constructor_receives_cached_dependencies (fuel : nat) (t : cty) (s : Runtime.state)
    (p : Runtime.ptr) (s' : Runtime.state) :
  Runtime.st_flag s t = Runtime.Unset ->
  Runtime.registry_get fuel t s = (Runtime.Ok p, s') ->
  exists f a o, Runtime.st_ctor s t = Some f /\ p = Some a /\
    nth_error (Runtime.st_heap s') a = Some o /\ Runtime.o_class o = Runtime.f_impl f /\
    Runtime.o_args o = map (Runtime.st_obj s') (Runtime.f_deps f) /\
    Forall (fun d => Runtime.st_flag s' d = Runtime.Done) (Runtime.f_deps f).
Proof.
  intros Hf H.
  destruct (registry_get_unset_ok _ _ _ _ _ Hf H) as (n & f & args & s1 & -> & Hc & Hr & Hp & ->).
  destruct (resolve_ok_cached _ _ _ _ _ Hr) as [Hargs Hall].
  assert (Ht : Runtime.st_flag s1 t = Runtime.Running).
  { apply (resolve_running_kept _ _ _ _ _ Hr); unfold Runtime.set_flag; cbn [Runtime.st_flag].
    apply upd_eq. }
  assert (Hne : forall d, In d (Runtime.f_deps f) -> d <> t).
  { intros d Hd ->; rewrite Forall_forall in Hall; specialize (Hall t Hd); congruence. }
  exists f, (length (Runtime.st_heap s1)),
    {| Runtime.o_class := Runtime.f_impl f; Runtime.o_args := args |}.
  split; [exact Hc|split; [exact Hp|split; [|split; [reflexivity|split]]]].
  - unfold Runtime.set_flag, Runtime.set_obj; cbn.
    rewrite nth_error_app2, Nat.sub_diag by lia; reflexivity.
  - cbn [Runtime.o_args]; rewrite Hargs; apply map_ext_in; intros d Hd.
    unfold Runtime.set_flag, Runtime.set_obj; cbn [Runtime.st_obj snd Runtime.make_shared].
    rewrite upd_neq by exact (Hne d Hd); reflexivity.
  - rewrite Forall_forall in Hall |- *; intros d Hd.
    unfold Runtime.set_flag, Runtime.set_obj; cbn [Runtime.st_flag snd Runtime.make_shared].
    rewrite upd_neq by exact (Hne d Hd); exact (Hall d Hd).
Qed.

Lemma constructor_receives_cached_dependencies_witness :
  exists p s', Runtime.registry_get 5 (TClass 10) service_and_logger_added = (Runtime.Ok p, s') /\
    exists f a o, p = Some a /\ nth_error (Runtime.st_heap s') a = Some o /\
      Runtime.o_args o = map (Runtime.st_obj s') (Runtime.f_deps f) /\
      Runtime.st_ctor service_and_logger_added (TClass 10) = Some f.
Proof.
  do 2 eexists; split; [vm_compute; reflexivity|].
  destruct (constructor_receives_cached_dependencies 5 (TClass 10) service_and_logger_added _ _
              eq_refl ltac:(vm_compute; reflexivity))
    as (f & a & o & Hc & Hp & Ho & _ & Hargs & _).
  exists f, a, o; auto.
Defined.

(** ** Every constructed object is a cached singleton *)

(** Whatever a [get<T>()] call ends in (a handle, an exception, a block),
    every object it constructed is the cached handle of a binding that was
    not yet realized before the call and is realized after it: the
    container never constructs an object it then drops. *)
Theorem get_constructs_only_cached_objects (fuel : nat) (t : cty) (s : Runtime.state)
    (r : Runtime.outcome Runtime.ptr) (s' : Runtime.state) :
  Runtime.registry_get fuel t s = (r, s') ->
  forall x, length (Runtime.st_heap s) <= x < length (Runtime.st_heap s') ->
  exists u, Runtime.st_flag s u <> Runtime.Done /\ Runtime.st_flag s' u = Runtime.Done /\
            Runtime.st_obj s' u = Some x.
Proof.
  intros H; exact (registry_get_new_cached _ _ _ _ _ H).
Qed.

Lemma get_constructs_only_cached_objects_witness :
  exists s', Runtime.registry_get 5 (TClass 10) service_and_logger_added = (Runtime.Ok (Some 1), s') /\
    exists u, Runtime.st_flag service_and_logger_added u <> Runtime.Done /\
      Runtime.st_flag s' u = Runtime.Done /\ Runtime.st_obj s' u = Some 0.
Proof.
  eexists; split; [vm_compute; reflexivity|].
  apply (get_constructs_only_cached_objects 5 (TClass 10) service_and_logger_added
           (Runtime.Ok (Some 1))); [vm_compute; reflexivity|vm_compute; lia].
Defined.

(** For any sequence of [add]s and [get]s run from start-up, continuing
    after a caught exception or not, the constructed objects and the
    realized bindings correspond one to one: every realized binding caches
    a constructed object of its factory's implementation class, every
    constructed object is the cached handle of a realized binding, and no
    two realized bindings share one. *)
Theorem program_objects_match_bindings (classes : cty -> Build.class_info) (s : Runtime.state) :
  Runtime.run_state classes s ->
  Runtime.wf s /\
  (forall x, x < length (Runtime.st_heap s) ->
     exists u, Runtime.st_flag s u = Runtime.Done /\ Runtime.st_obj s u = Some x) /\
  Runtime.handles_distinct s.
Proof.
  induction 1 as [|fuel st s r s' _ (Hw & Hc & Hd) E].
  - split; [exact init_wf|split].
    + intros x Hx; cbn in Hx; lia.
    + intros u v a Hu; discriminate.
  - exact (stmt_objects_bound _ _ _ _ _ _ Hw Hc Hd E).
Qed.

(** [add<Service>()], a [get<Service>()] that throws and is caught,
    [add<Logger>()], and [get<Service>()] again. *)
Lemma program_objects_match_bindings_witness :
  let s1 := snd (Runtime.registry_get 5 (TClass 10) service_added) in
  let s2 := Runtime.di_add wiring_classes (TClass 11) (TClass 11) s1 in
  let s3 := snd (Runtime.registry_get 5 (TClass 10) s2) in
  fst (Runtime.registry_get 5 (TClass 10) service_added)
    = Runtime.Fail (Runtime.Throw Runtime.Bad_function_call) /\
  fst (Runtime.registry_get 5 (TClass 10) s2) = Runtime.Ok (Some 1) /\
  Runtime.handles_distinct s3.
Proof.
  intros s1 s2 s3.
  split; [vm_compute; reflexivity|split; [vm_compute; reflexivity|]].
  refine (proj2 (proj2 (program_objects_match_bindings wiring_classes s3 _))).
  apply (Runtime.run_step _ 5 (Build.SGet (TClass 10)) s2 (fst (Runtime.registry_get 5 (TClass 10) s2)));
    [|vm_compute; reflexivity].
  apply (Runtime.run_step _ 5 (Build.SAdd1 (TClass 11)) s1 (Runtime.Ok None)); [|reflexivity].
  apply (Runtime.run_step _ 5 (Build.SGet (TClass 10)) service_added
           (fst (Runtime.registry_get 5 (TClass 10) service_added))); [|vm_compute; reflexivity].
  apply (Runtime.run_step _ 5 (Build.SAdd1 (TClass 10)) Runtime.init (Runtime.Ok None));
    [apply Runtime.run_init|reflexivity].
Defined.

(** ** Dependency cycles *)

(** A [get<T>()] on a binding of a dependency cycle none of whose
    bindings is realized never returns a handle: every factory of the
    cycle needs a handle of another one first. *)
Theorem get_on_cycle_never_returns (S : cty -> Prop) (fuel : nat) (t : cty) (s : Runtime.state) :
  Runtime.stuck S s -> S t ->
  forall p s', Runtime.registry_get fuel t s <> (Runtime.Ok p, s').
Proof.
  intros Hs Ht p s' H; exact (proj1 (registry_get_stuck S fuel t s p s' Hs H) Ht).
Qed.

Lemma get_on_cycle_never_returns_witness :
  (exists s', Runtime.registry_get 5 (TClass 40) cycle_added = (Runtime.Fail Runtime.Deadlock, s')) /\
  forall p s', Runtime.registry_get 5 (TClass 40) cycle_added <> (Runtime.Ok p, s').
Proof.
  split; [eexists; vm_compute; reflexivity|].
  apply (get_on_cycle_never_returns (fun u => u = TClass 40 \/ u = TClass 41)); [|left; reflexivity].
  intros u [-> | ->]; (split; [vm_compute; discriminate|eexists; split; [vm_compute; reflexivity|]]).
  - exists (TClass 41); split; [vm_compute; left; reflexivity|right; reflexivity].
  - exists (TClass 40); split; [vm_compute; left; reflexivity|left; reflexivity].
Defined.

(** ** Signature discovery: what the probes record *)

Lemma find_app_l {A} (f : A -> bool) l1 l2 x : find f l1 = Some x -> find f (l1 ++ l2) = Some x.
Proof.
  induction l1 as [|a l1 IH]; simpl; [discriminate|].
  destruct (f a); [auto|exact IH].
Qed.

Lemma find_app_r {A} (f : A -> bool) l1 l2 : find f l1 = None -> find f (l1 ++ l2) = find f l2.
Proof.
  induction l1 as [|a l1 IH]; simpl; [auto|].
  destruct (f a); [discriminate|exact IH].
Qed.

Lemma existsb_find_none {A} (f : A -> bool) l : existsb f l = false -> find f l = None.
Proof.
  induction l as [|a l IH]; simpl; [auto|].
  destruct (f a); [discriminate|exact IH].
Qed.

Lemma loophole_app_l defs l T N U :
  Refl.loophole defs T N = Some U -> Refl.loophole (defs ++ l) T N = Some U.
Proof.
  unfold Refl.loophole.
  destruct (find _ defs) as [[[T1 N1] U1]|] eqn:E; [|discriminate].
  rewrite (find_app_l _ _ _ _ E); auto.
Qed.

Lemma loophole_app_r defs l T N :
  Refl.loophole defs T N = None -> Refl.loophole (defs ++ l) T N = Refl.loophole l T N.
Proof.
  unfold Refl.loophole.
  destruct (find _ defs) as [[[T1 N1] U1]|] eqn:E; [discriminate|].
  rewrite (find_app_r _ _ _ E); auto.
Qed.

Lemma loophole_undefined defs T N :
  Refl.cloophole_defined defs T N = false -> Refl.loophole defs T N = None.
Proof.
  unfold Refl.cloophole_defined, Refl.loophole; intros H; rewrite (existsb_find_none _ _ H); auto.
Qed.

Lemma loophole_single T N U : Refl.loophole [(T, N, U)] T N = Some U.
Proof.
  unfold Refl.loophole; simpl; rewrite (proj2 (cty_eqb_eq T T) eq_refl), Nat.eqb_refl; reflexivity.
Qed.

Lemma cloophole_defined_add_other defs T i j U :
  i <> j -> Refl.cloophole_defined (defs ++ [(T, i, U)]) T j = Refl.cloophole_defined defs T j.
Proof.
  intros Hij; unfold Refl.cloophole_defined; rewrite existsb_app; simpl.
  rewrite (proj2 (Nat.eqb_neq i j) Hij), andb_false_r, !orb_false_r; reflexivity.
Qed.

Lemma probe_params_recover defs T i ps :
  (forall j, i <= j -> Refl.cloophole_defined defs T j = false) ->
  Forall (fun P => Refl.fn_def_enabled T (Refl.deduced_U P) = true) ps ->
  Forall (fun P => Refl.probe_binds P = true) ps ->
  exists defs', Refl.probe_params defs T i ps = Some defs' /\
    Refl.read_back defs' T i (length ps) = Some (map Refl.deduced_U ps) /\
    (forall j, j < i -> Refl.loophole defs' T j = Refl.loophole defs T j).
Proof.
  revert defs i; induction ps as [|P ps IH]; intros defs i Hund Hen Hbind.
  - exists defs; auto.
  - inversion Hen as [|? ? HP Hps]; subst.
    inversion Hbind as [|? ? HB Hbs]; subst.
    set (defs1 := defs ++ [(T, i, Refl.deduced_U P)]).
    assert (Hc : Refl.c_op_convert defs T i (Refl.deduced_U P) = Some defs1).
    { unfold Refl.c_op_convert; rewrite HP, (Hund i (le_n i)); reflexivity. }
    assert (Hund1 : forall j, S i <= j -> Refl.cloophole_defined defs1 T j = false).
    { intros j Hj; unfold defs1; rewrite cloophole_defined_add_other by lia; apply Hund; lia. }
    destruct (IH defs1 (S i) Hund1 Hps Hbs) as (defs' & Hp & Hr & Hf).
    exists defs'; split; [simpl; rewrite Hc, HB; exact Hp|split].
    + cbn [length map Refl.read_back]; rewrite (Hf i (Nat.lt_succ_diag_r i)), Hr.
      unfold defs1; rewrite loophole_app_r by exact (loophole_undefined _ _ _ (Hund i (le_n i))).
      rewrite loophole_single; reflexivity.
    + intros j Hj; rewrite (Hf j ltac:(lia)); unfold defs1.
      destruct (Refl.loophole defs T j) eqn:E; [apply loophole_app_l; exact E|].
      rewrite loophole_app_r by exact E.
      unfold Refl.loophole; simpl; rewrite (proj2 (Nat.eqb_neq i j)) by lia.
      rewrite andb_false_r; reflexivity.
Qed.

(** Signature discovery recovers the constructor's parameter list: when
    [T]'s probes have recorded nothing yet and the constructor tried
    first has parameters [ps], none of them [T] itself (modulo cv and
    references) and none a non-const lvalue reference (which the probe's
    prvalue cannot bind), the probes convert to all of them and
    [as_tuple<T>] over [ps]'s arity reads back exactly the parameter types
    with references and top-level cv removed, in order. *)
Theorem probes_recover_parameter_types (defs : Refl.loophole_defs) (T : cty) (ps : list cty) :
  (forall j, Refl.cloophole_defined defs T j = false) ->
  Forall (fun P => Refl.fn_def_enabled T (Refl.deduced_U P) = true) ps ->
  Forall (fun P => Refl.probe_binds P = true) ps ->
  exists defs', Refl.probe_params defs T 0 ps = Some defs' /\
    Refl.as_tuple defs' T (length ps) = Some (map remove_cvref ps).
Proof.
  intros Hund Hen Hbind.
  destruct (probe_params_recover defs T 0 ps (fun j _ => Hund j) Hen Hbind) as (defs' & Hp & Hr & _).
  exists defs'; split; [exact Hp|exact Hr].
Qed.

Lemma probes_recover_parameter_types_witness :
  exists defs', Refl.probe_params [] (TClass 10) 0
      [TLRef (TConst (TShared (TClass 11))); TShared (TClass 12)] = Some defs' /\
    Refl.as_tuple defs' (TClass 10) 2 = Some [TShared (TClass 11); TShared (TClass 12)].
Proof.
  apply (probes_recover_parameter_types [] (TClass 10)
           [TLRef (TConst (TShared (TClass 11))); TShared (TClass 12)]).
  - intros j; reflexivity.
  - repeat constructor.
  - repeat constructor.
Defined.

Lemma probe_conversions_app defs T l1 l2 :
  Refl.probe_conversions defs T (l1 ++ l2) =
  Refl.probe_conversions (Refl.probe_conversions defs T l1) T l2.
Proof.
  revert defs; induction l1 as [|[N U] l1 IH]; intros defs; simpl; [reflexivity|].
  destruct (Refl.c_op_convert defs T N U); apply IH.
Qed.

Lemma probe_conversions_kept defs T convs T' N U :
  Refl.loophole defs T' N = Some U -> Refl.loophole (Refl.probe_conversions defs T convs) T' N = Some U.
Proof.
  revert defs; induction convs as [|[N1 U1] convs IH]; intros defs H; simpl; [exact H|].
  unfold Refl.c_op_convert; destruct (Refl.fn_def_enabled T U1); [|apply IH; exact H].
  destruct (Refl.cloophole_defined defs T N1); apply IH; [exact H|apply loophole_app_l; exact H].
Qed.

Lemma probe_conversions_other defs T N pre :
  Refl.cloophole_defined defs T N = false ->
  Forall (fun '(N', U') => N' <> N \/ Refl.fn_def_enabled T U' = false) pre ->
  Refl.cloophole_defined (Refl.probe_conversions defs T pre) T N = false.
Proof.
  intros H Hall; revert defs H; induction Hall as [|[N1 U1] pre Hx _ IH]; intros defs H; simpl; [exact H|].
  unfold Refl.c_op_convert.
  destruct Hx as [Hne|Hdis]; [|rewrite Hdis; apply IH; exact H].
  destruct (Refl.fn_def_enabled T U1); [|apply IH; exact H].
  destruct (Refl.cloophole_defined defs T N1); apply IH; [exact H|].
  rewrite cloophole_defined_add_other by exact Hne; exact H.
Qed.

(** The type recorded for probe [N] of [T] is fixed by the first
    conversion [c_op<T, N>] -> [U] that overload resolution instantiates
    and that [fn_def]'s [enable_if] keeps: conversions tried before it
    (for other probes, or removed by SFINAE) leave it undefined, and once
    it is defined, the [fn_def<T, U, N, true>] specialisation makes every
    later conversion leave it unchanged. *)
Theorem first_enabled_conversion_recorded (defs : Refl.loophole_defs) (T : cty) (N : nat)
    (U : cty) (pre post : list (nat * cty)) :
  Refl.cloophole_defined defs T N = false ->
  Forall (fun '(N', U') => N' <> N \/ Refl.fn_def_enabled T U' = false) pre ->
  Refl.fn_def_enabled T U = true ->
  Refl.loophole (Refl.probe_conversions defs T (pre ++ (N, U) :: post)) T N = Some U.
Proof.
  intros Hund Hpre Hen.
  rewrite probe_conversions_app; simpl.
  pose proof (probe_conversions_other _ _ _ _ Hund Hpre) as Hund'.
  unfold Refl.c_op_convert at 1; rewrite Hen, Hund'.
  apply probe_conversions_kept.
  rewrite loophole_app_r by exact (loophole_undefined _ _ _ Hund').
  apply loophole_single.
Qed.

Lemma first_enabled_conversion_recorded_witness :
  Refl.loophole (Refl.probe_conversions [] (TClass 10)
     [(0, TClass 10); (1, TInt); (0, TShared (TClass 11)); (0, TInt)]) (TClass 10) 0 =
  Some (TShared (TClass 11)).
Proof.
  exact (first_enabled_conversion_recorded [] (TClass 10) 0 (TShared (TClass 11))
           [(0, TClass 10); (1, TInt)] [(0, TInt)] eq_refl
           ltac:(constructor; [simpl; right; reflexivity|constructor; [simpl; left; discriminate|constructor]]) eq_refl).
Defined.
